(** * Twin: the recording processing pipeline

    A shallow embedding of the recording pipeline of the Twin repository
    (upload transport, polling backoff, job workers, route handlers and
    retry operations) together with the properties its specification
    states about them.

    Conventions.
    - JavaScript numbers that hold counts, HTTP codes and milliseconds are
      integers of [Z]; a draw of [Math.random()] is a rational of [[0,1)].
    - An [await]ed call that may reject is a computation that may throw;
      the outcome of a call to a collaborator outside the repository
      (object store, providers, queue broker, XHR) is read from an
      environment record, so that every outcome can be chosen.
    - A Prisma table is a finite map or an append-only list of rows; one
      operation (a handler, a worker run, a retry) is executed without
      interleaving. *)

From Stdlib Require Import ZArith QArith Qround Lia.
From stdpp Require Import base option list strings gmap pretty.

Local Open Scope Z_scope.

(** ** Thrown values

    [throw v] may throw any value; the code only ever inspects
    [error instanceof Error ? error.message : fallback]. *)

Inductive Exn :=
  | ErrorObj (message : string)
  | NonError (description : string).

Definition messageOr (fallback : string) (e : Exn) : string :=
  match e with
  | ErrorObj m => m
  | NonError _ => fallback
  end.

(** JavaScript truthiness of a string: only the empty string is falsy. *)
Definition truthy (s : string) : bool :=
  match s with
  | EmptyString => false
  | String _ _ => true
  end.

(* ===================================================================== *)
(** ** apps/web/src/lib/upload.ts *)
(* ===================================================================== *)

Module Upload.

Inductive UploadFailureReason :=
  | network | timeout | aborted | http_error | unknown.

Inductive UploadResult :=
  | UploadOk (status : Z) (etag : option string) (attempts : Z)
  | UploadFail (status : option Z) (reason : UploadFailureReason)
               (retriable : bool) (message : string) (attempts : Z).

Definition ok (r : UploadResult) : bool :=
  match r with UploadOk _ _ _ => true | UploadFail _ _ _ _ _ => false end.

Definition attempts (r : UploadResult) : Z :=
  match r with UploadOk _ _ a => a | UploadFail _ _ _ _ a => a end.

(** [{ ...result, attempts: n }] *)
Definition withAttempts (r : UploadResult) (n : Z) : UploadResult :=
  match r with
  | UploadOk s e _ => UploadOk s e n
  | UploadFail s re rt m _ => UploadFail s re rt m n
  end.

Definition isRetriableStatus (status : Z) : bool :=
  (status =? 408) || (status =? 429) || ((500 <=? status) && (status <=? 599)).

(** [getBackoffMs]: [rnd] is the value [Math.random()] returned. *)
Definition getBackoffMs (rnd : Q) (attemptIndex : Z) : Z :=
  let base := 500 * 2 ^ (Z.max 0 (attemptIndex - 1)) in
  let jitter := Qfloor (rnd * 200) in
  base + jitter.

(** What the XMLHttpRequest of one [uploadOnce] call ends with. *)
Inductive XhrOutcome :=
  | SignalAlreadyAborted
  | Loaded (status : Z) (etag : option string)
  | NetworkError (status : Z)
  | TimedOut (status : Z)
  | Aborted (status : Z)
  | SendThrew (e : Exn).

(** [xhr.status || undefined] *)
Definition statusOrUndefined (status : Z) : option Z :=
  if status =? 0 then None else Some status.

Definition uploadOnce (o : XhrOutcome) : UploadResult :=
  match o with
  | SignalAlreadyAborted =>
      UploadFail None aborted false "Upload aborted" 1
  | Loaded status etag =>
      if (200 <=? status) && (status <? 300)
      then UploadOk status etag 1
      else UploadFail (Some status) http_error (isRetriableStatus status)
             ("Upload failed with status " +:+ pretty status) 1
  | NetworkError status =>
      UploadFail (statusOrUndefined status) network true
        "Network error while uploading" 1
  | TimedOut status =>
      UploadFail (statusOrUndefined status) timeout true "Upload timed out" 1
  | Aborted status =>
      UploadFail (statusOrUndefined status) aborted false "Upload aborted" 1
  | SendThrew e =>
      UploadFail None unknown true (messageOr "Failed to start upload" e) 1
  end.

(** The browser as seen by one call of [uploadToPresignedUrl]: the outcome
    of the k-th transfer and the k-th draw of [Math.random()]. *)
Record Transport := {
  xhr : nat -> XhrOutcome;
  random : nat -> Q
}.

(** What a call did: its result, how many transfers it issued and the
    delays it slept, in order. *)
Record Run := {
  result : UploadResult;
  transfers : nat;
  sleeps : list Z
}.

(** The [while (attempt <= maxRetries)] loop; one unit of [fuel] per
    iteration. *)
Fixpoint uploadLoop (fuel : nat) (t : Transport) (maxRetries attempt : Z)
    (lastFailure : option UploadResult) (calls : nat) (slept : list Z)
    : option Run :=
  match fuel with
  | O => None
  | S fuel' =>
      if attempt <=? maxRetries then
        let attempt := attempt + 1 in
        let r := uploadOnce (xhr t calls) in
        let calls := S calls in
        if ok r then
          Some {| result := withAttempts r attempt;
                  transfers := calls; sleeps := slept |}
        else
          let lastFailure := withAttempts r attempt in
          match r with
          | UploadFail _ _ retriable _ _ =>
              if negb retriable || (maxRetries <? attempt) then
                Some {| result := lastFailure;
                        transfers := calls; sleeps := slept |}
              else
                uploadLoop fuel' t maxRetries attempt (Some lastFailure) calls
                  (slept ++ [getBackoffMs (random t (length slept)) attempt])
          | UploadOk _ _ _ =>
              Some {| result := lastFailure;
                      transfers := calls; sleeps := slept |}
          end
      else
        Some {| result :=
                  default (UploadFail None unknown false "Upload failed"
                             (maxRetries + 1)) lastFailure;
                transfers := calls; sleeps := slept |}
  end.

(** [options.maxRetries ?? 3] *)
Definition maxRetriesOf (maxRetries : option Z) : Z := default 3 maxRetries.

Definition uploadToPresignedUrl (fuel : nat) (t : Transport)
    (maxRetries : option Z) : option Run :=
  uploadLoop fuel t (maxRetriesOf maxRetries) 0 None 0%nat [].

Definition StrictlyIncreasing (l : list Z) : Prop :=
  forall (i j : nat) (x y : Z),
    (i < j)%nat -> l !! i = Some x -> l !! j = Some y -> x < y.

End Upload.

(* ===================================================================== *)
(** ** The recording query hooks (src/unnamed/part_001): polling with backoff *)
(* ===================================================================== *)

Module Polling.

(** The part of [RecordingWithRelations] the hook looks at: the status
    and whether the two artifacts are there. *)
Record RecordingWithRelations := {
  status : string;
  transcript : option string;
  debrief : option string
}.

(** [backoffDelayMs]: [rnd] is the value [Math.random()] returned. *)
Definition backoffDelayMs (rnd : Q) (attempt : Z) : Z :=
  let base := Z.min (1500 * 2 ^ (Z.max 0 attempt)) 20000 in
  let jitter := Qfloor (rnd * 250) in
  base + jitter.

Definition isTerminalRecordingState (data : option RecordingWithRelations)
    : bool :=
  match data with
  | None => false
  | Some d =>
      if String.eqb (status d) "failed" then true
      else String.eqb (status d) "complete" && bool_decide (is_Some (debrief d))
  end.

(** The [refetchInterval] of [useRecordingWithPolling]: [None] stands
    for [false] (no further fetch). *)
Definition refetchInterval (data : option RecordingWithRelations) : option Z :=
  if String.eqb (from_option status "" data) "failed" then None
  else if String.eqb (from_option status "" data) "complete"
          && bool_decide (is_Some (data ≫= debrief))
       then None
       else Some 2000.

(** The [key] template string of the second effect of
    [useRecordingWithBackoffPolling]. *)
Definition fingerprint (data : option RecordingWithRelations) : string :=
  from_option status "" data
  +:+ "-" +:+ (if bool_decide (is_Some (data ≫= transcript)) then "t" else "f")
  +:+ "-" +:+ (if bool_decide (is_Some (data ≫= debrief)) then "t" else "f").

(** The three refs of the hook; a pending timer is kept with its delay. *)
Record Refs := {
  attemptRef : Z;
  timeoutRef : option Z;
  lastKeyRef : string
}.

(** First effect, run when [recordingId] changes. *)
Definition onRecordingIdChange (r : Refs) : Refs :=
  {| attemptRef := 0; timeoutRef := None; lastKeyRef := "" |}.

(** Second effect, run on new [query.data]: the refs afterwards and the
    delay of the timer it set, if it set one. *)
Definition onData (rnd : Q) (data : option RecordingWithRelations) (r : Refs)
    : Refs * option Z :=
  let key := fingerprint data in
  let r1 :=
    if truthy key && negb (String.eqb key (lastKeyRef r))
    then {| attemptRef := 0; timeoutRef := timeoutRef r; lastKeyRef := key |}
    else r in
  if isTerminalRecordingState data then
    ({| attemptRef := attemptRef r1; timeoutRef := None;
        lastKeyRef := lastKeyRef r1 |}, None)
  else
    let delay := backoffDelayMs rnd (attemptRef r1) in
    ({| attemptRef := attemptRef r1; timeoutRef := Some delay;
        lastKeyRef := lastKeyRef r1 |}, Some delay).

(** The timer callback, up to its [query.refetch()]. *)
Definition onTimer (r : Refs) : Refs :=
  {| attemptRef := attemptRef r + 1; timeoutRef := timeoutRef r;
     lastKeyRef := lastKeyRef r |}.

(** A run of polls: each element of [observed] is a [query.data] the
    second effect ran for, the first at mount and each later one after the
    refetch of the timer before it; the k-th scheduled delay uses the k-th
    random draw. The run ends when the effect sets no timer. *)
Fixpoint pollRun (random : nat -> Q) (k : nat) (r : Refs)
    (observed : list (option RecordingWithRelations)) : list Z :=
  match observed with
  | [] => []
  | data :: rest =>
      match onData (random k) data r with
      | (r', Some delay) => delay :: pollRun random (S k) (onTimer r') rest
      | (_, None) => []
      end
  end.

(** The deterministic part of the delay of attempt [n]. *)
Definition baseDelay (n : Z) : Z := Z.min (1500 * 2 ^ n) 20000.

End Polling.

(* ===================================================================== *)
(** ** The server side: rows, queues, workers, handlers *)
(* ===================================================================== *)

Module Pipeline.

(** *** Rows *)

Inductive RecordingStatus :=
  | pending | uploaded | processing | complete | failed.

Inductive JobStatus :=
  | job_pending | job_running | job_complete | job_failed.

Inductive JobType := TRANSCRIBE | DEBRIEF.

Global Instance RecordingStatus_eq_dec : EqDecision RecordingStatus.
Proof. solve_decision. Defined.
Global Instance JobStatus_eq_dec : EqDecision JobStatus.
Proof. solve_decision. Defined.
Global Instance JobType_eq_dec : EqDecision JobType.
Proof. solve_decision. Defined.

Definition statusName (s : RecordingStatus) : string :=
  match s with
  | pending => "pending"
  | uploaded => "uploaded"
  | processing => "processing"
  | complete => "complete"
  | failed => "failed"
  end.

Record Recording := {
  id : string;
  userId : string;
  title : string;
  mode : string;
  status : RecordingStatus;
  objectKey : option string;
  originalFilename : option string;
  mimeType : option string;
  fileSize : option Z;
  duration : option Z
}.

(** A Job row; its id is its position in the append-only Job table, which
    stands for the id Prisma generates. *)
Record Job := {
  jobRecordingId : string;
  type : JobType;
  jobStatus : JobStatus;
  error : option string;
  startedAt : option nat;
  completedAt : option nat
}.

Record TranscriptSegment := {
  segStart : Q;
  segEnd : Q;
  segText : string;
  speaker : option string
}.

Record Transcript := {
  transcriptId : nat;
  transcriptRecordingId : string;
  text : string;
  segments : option (list TranscriptSegment);
  language : string
}.

Record DebriefSection := {
  sectionTitle : string;
  sectionContent : string;
  sectionOrder : Z
}.

Record Debrief := {
  debriefId : nat;
  debriefRecordingId : string;
  markdown : string;
  sections : list DebriefSection
}.

(** The four tables. [recordings] is keyed by the primary key; the
    Transcript and Debrief tables are lists of rows, so that "one row per
    recording" is something to prove and not a property of the type. *)
Record Db := {
  recordings : gmap string Recording;
  jobs : list Job;
  transcripts : list Transcript;
  debriefs : list Debrief
}.

(** *** Queue payloads (queues/config.ts is not among the sources; the
    fields are those the workers destructure and the producers fill) *)

Record TranscriptionJobData := {
  tRecordingId : string;
  tJobId : nat;
  tObjectKey : string;
  tMimeType : string;
  tUserId : string
}.

Record DebriefJobData := {
  dRecordingId : string;
  dJobId : nat;
  dTranscriptId : nat;
  dTranscriptText : string;
  dRecordingMode : string;
  dRecordingTitle : string;
  dUserId : string
}.

(** *** What an operation does that others can observe, in order *)

Inductive Event :=
  | JobRowCreated (jobId : nat) (ty : JobType)
  | EnqueueAttempted (ty : JobType) (jobId : nat)
  | RecordingStatusSet (recordingId : string) (s : RecordingStatus)
  | DebriefPersisted (recordingId : string).

Record World := {
  db : Db;
  transcriptionQueue : list TranscriptionJobData;
  debriefQueue : list DebriefJobData;
  trace : list Event
}.

Definition withDb (w : World) (d : Db) : World :=
  {| db := d; transcriptionQueue := transcriptionQueue w;
     debriefQueue := debriefQueue w; trace := trace w |}.

Definition logEvent (w : World) (e : Event) : World :=
  {| db := db w; transcriptionQueue := transcriptionQueue w;
     debriefQueue := debriefQueue w; trace := trace w ++ [e] |}.

(** *** Computations that read and write the world and may throw *)

Inductive Outcome (A : Type) :=
  | Ok (a : A) (w : World)
  | Throw (e : Exn) (w : World).
Arguments Ok {A} a w.
Arguments Throw {A} e w.

Definition world {A} (o : Outcome A) : World :=
  match o with Ok _ w => w | Throw _ w => w end.

Definition M (A : Type) : Type := World -> Outcome A.

Definition ret {A} (a : A) : M A := fun w => Ok a w.

Definition bind {A B} (m : M A) (k : A -> M B) : M B :=
  fun w => match m w with
           | Ok a w' => k a w'
           | Throw e w' => Throw e w'
           end.

Definition throw {A} (e : Exn) : M A := fun w => Throw e w.

(** [try { m } catch (error) { h error }] *)
Definition tryCatch {A} (m : M A) (h : Exn -> M A) : M A :=
  fun w => match m w with
           | Ok a w' => Ok a w'
           | Throw e w' => h e w'
           end.

(** An awaited call to a collaborator whose outcome the environment
    fixes. *)
Definition await {A} (r : Exn + A) : M A :=
  match r with
  | inl e => throw e
  | inr a => ret a
  end.

Definition awaitUnit (r : option Exn) : M unit :=
  match r with
  | Some e => throw e
  | None => ret tt
  end.

Notation "x <- m ; k" := (bind m (fun x => k))
  (at level 20, m at level 100, k at level 200, only parsing).
Notation "m ;;; k" := (bind m (fun _ => k))
  (at level 100, k at level 200, only parsing, right associativity).

(** *** Prisma operations

    [update] rejects when the row is not there; [create], [upsert],
    [findUnique], [findFirst] and [updateMany] do not. A field left out of
    [data] (or given as [undefined]) is left as it is. *)

Definition recordNotFound : Exn :=
  ErrorObj "An operation failed because it depends on one or more records that were required but not found.".

Definition setRecordings (d : Db) (r : gmap string Recording) : Db :=
  {| recordings := r; jobs := jobs d;
     transcripts := transcripts d; debriefs := debriefs d |}.

Definition setJobs (d : Db) (j : list Job) : Db :=
  {| recordings := recordings d; jobs := j;
     transcripts := transcripts d; debriefs := debriefs d |}.

Definition setTranscripts (d : Db) (t : list Transcript) : Db :=
  {| recordings := recordings d; jobs := jobs d;
     transcripts := t; debriefs := debriefs d |}.

Definition setDebriefs (d : Db) (b : list Debrief) : Db :=
  {| recordings := recordings d; jobs := jobs d;
     transcripts := transcripts d; debriefs := b |}.

(** The [data] of [db.recording.update]. *)
Record RecordingData := {
  dataStatus : option RecordingStatus;
  dataObjectKey : option string;
  dataFileSize : option Z;
  dataDuration : option Z
}.

Definition noData : RecordingData :=
  {| dataStatus := None; dataObjectKey := None;
     dataFileSize := None; dataDuration := None |}.

Definition statusData (s : RecordingStatus) : RecordingData :=
  {| dataStatus := Some s; dataObjectKey := None;
     dataFileSize := None; dataDuration := None |}.

Definition orKeep {A} (new old : option A) : option A :=
  match new with Some a => Some a | None => old end.

Definition applyRecordingData (u : RecordingData) (r : Recording) : Recording :=
  {| id := id r; userId := userId r; title := title r; mode := mode r;
     status := default (status r) (dataStatus u);
     objectKey := orKeep (dataObjectKey u) (objectKey r);
     originalFilename := originalFilename r;
     mimeType := mimeType r;
     fileSize := orKeep (dataFileSize u) (fileSize r);
     duration := orKeep (dataDuration u) (duration r) |}.

Definition logStatus (rid : string) (u : RecordingData) (w : World) : World :=
  match dataStatus u with
  | Some s => logEvent w (RecordingStatusSet rid s)
  | None => w
  end.

Definition db_recording_update (rid : string) (u : RecordingData)
    : M Recording :=
  fun w =>
    match recordings (db w) !! rid with
    | None => Throw recordNotFound w
    | Some r =>
        let r' := applyRecordingData u r in
        Ok r' (logStatus rid u
                 (withDb w (setRecordings (db w)
                              (<[rid := r']> (recordings (db w))))))
    end.

(** [db.recording.updateMany({ where: { id, status }, data })] *)
Definition db_recording_updateMany (rid : string)
    (whereStatus : RecordingStatus) (u : RecordingData) : M nat :=
  fun w =>
    match recordings (db w) !! rid with
    | Some r =>
        if decide (status r = whereStatus) then
          Ok 1%nat (logStatus rid u
                      (withDb w (setRecordings (db w)
                                   (<[rid := applyRecordingData u r]>
                                      (recordings (db w))))))
        else Ok 0%nat w
    | None => Ok 0%nat w
    end.

Definition db_recording_findUnique (rid : string) : M (option Recording) :=
  fun w => Ok (recordings (db w) !! rid) w.

(** [db.recording.findFirst({ where: { id, userId } })] *)
Definition db_recording_findFirst (rid uid : string) : M (option Recording) :=
  fun w =>
    Ok (match recordings (db w) !! rid with
        | Some r => if String.eqb (userId r) uid then Some r else None
        | None => None
        end) w.

(** [db.recording.create]: the id Prisma generates is [rid]; a taken id
    is a unique-constraint failure. *)
Definition db_recording_create (rid : string) (r : Recording) : M Recording :=
  fun w =>
    match recordings (db w) !! rid with
    | Some _ => Throw (ErrorObj "Unique constraint failed on the fields: (`id`)") w
    | None =>
        Ok r (withDb w (setRecordings (db w) (<[rid := r]> (recordings (db w)))))
    end.

(** The [data] of [db.job.update] as [updateJobStatus] builds it. *)
Record JobData := {
  dataJobStatus : JobStatus;
  dataError : option string;
  dataStartedAt : option nat;
  dataCompletedAt : option nat
}.

Definition applyJobData (u : JobData) (j : Job) : Job :=
  {| jobRecordingId := jobRecordingId j; type := type j;
     jobStatus := dataJobStatus u;
     error := orKeep (dataError u) (error j);
     startedAt := orKeep (dataStartedAt u) (startedAt j);
     completedAt := orKeep (dataCompletedAt u) (completedAt j) |}.

Definition db_job_update (jobId : nat) (u : JobData) : M unit :=
  fun w =>
    match jobs (db w) !! jobId with
    | None => Throw recordNotFound w
    | Some j =>
        Ok tt (withDb w (setJobs (db w) (<[jobId := applyJobData u j]> (jobs (db w)))))
    end.

(** [db.job.create({ data: { recordingId, type, status: 'pending' } })];
    returns the id of the new row. *)
Definition db_job_create (rid : string) (ty : JobType) : M nat :=
  fun w =>
    let jobId := length (jobs (db w)) in
    let row := {| jobRecordingId := rid; type := ty; jobStatus := job_pending;
                  error := None; startedAt := None; completedAt := None |} in
    Ok jobId (logEvent (withDb w (setJobs (db w) (jobs (db w) ++ [row])))
                (JobRowCreated jobId ty)).

(** [upsert]: the first row that matches is updated; when none does,
    the row to create is appended. Returns the row written. *)
Fixpoint upsertRow {A} (matches : A -> bool) (update : A -> A) (create : A)
    (rows : list A) : A * list A :=
  match rows with
  | [] => (create, [create])
  | x :: rest =>
      if matches x then (update x, update x :: rest)
      else let '(row, rest') := upsertRow matches update create rest in
           (row, x :: rest')
  end.

Definition forRecording (rid : string) (t : Transcript) : bool :=
  String.eqb (transcriptRecordingId t) rid.

Definition debriefFor (rid : string) (b : Debrief) : bool :=
  String.eqb (debriefRecordingId b) rid.

(** [db.transcript.upsert({ where: { recordingId }, create, update })]
    with the [create] and [update] objects the two callers pass. *)
Definition db_transcript_upsert (rid : string) (newText : string)
    (newSegments : option (list TranscriptSegment)) (newLanguage : string)
    : M Transcript :=
  fun w =>
    let rows := transcripts (db w) in
    let '(row, rows') :=
      upsertRow (forRecording rid)
        (fun t => {| transcriptId := transcriptId t;
                     transcriptRecordingId := transcriptRecordingId t;
                     text := newText;
                     segments := orKeep newSegments (segments t);
                     language := newLanguage |})
        {| transcriptId := length rows; transcriptRecordingId := rid;
           text := newText; segments := newSegments;
           language := newLanguage |}
        rows in
    Ok row (withDb w (setTranscripts (db w) rows')).

Definition db_debrief_upsert (rid : string) (newMarkdown : string)
    (newSections : list DebriefSection) : M Debrief :=
  fun w =>
    let rows := debriefs (db w) in
    let '(row, rows') :=
      upsertRow (debriefFor rid)
        (fun b => {| debriefId := debriefId b;
                     debriefRecordingId := debriefRecordingId b;
                     markdown := newMarkdown; sections := newSections |})
        {| debriefId := length rows; debriefRecordingId := rid;
           markdown := newMarkdown; sections := newSections |}
        rows in
    Ok row (logEvent (withDb w (setDebriefs (db w) rows'))
              (DebriefPersisted rid)).

(** The [transcript] and [debrief] relations of a Recording
    ([include: { transcript: true, debrief: true }]). *)
Definition transcriptOf (rid : string) (d : Db) : option Transcript :=
  find (forRecording rid) (transcripts d).

Definition debriefOf (rid : string) (d : Db) : option Debrief :=
  find (debriefFor rid) (debriefs d).

(** *** Collaborators outside the repository *)

Inductive AudioSource :=
  | UrlSource (url : string) (mime : string)
  | BufferSource (data : string) (mime : string).

(** Modelled from the spec: the provider result type of lib/ai is not
    among the sources; the spec gives
    [transcribe(...) -> {text, segments, language, duration?}]. The
    worker reads the segments as [transcriptionResult.segments?.length ?? 0],
    so a result may come without them. *)
Record ProviderTranscription := {
  pText : string;
  pSegments : option (list TranscriptSegment);
  pLanguage : string;
  pDuration : option Q
}.

Record ProviderDebrief := {
  pMarkdown : string;
  pSections : list DebriefSection
}.

Record Env := {
  now : nat;
  ENABLE_FFMPEG_TRANSCODE : bool;
  getPresignedDownloadUrl : string -> Exn + string;
  transcodeUrlToWav16kMono : string -> string -> Exn + string;
  removeTempDir : option Exn;
  transcribe : AudioSource -> Exn + ProviderTranscription;
  generateDebrief : string -> string -> string -> Exn + ProviderDebrief;
  headObject : string -> option (string * Exn);
  queueAdd : JobType -> nat -> option Exn;
  updateProgress : Z -> option Exn
}.

(** *** String helpers of the workers (ASCII) *)

Fixpoint beforeSemicolon (s : string) : string :=
  match s with
  | EmptyString => EmptyString
  | String c rest =>
      if Ascii.eqb c (Ascii.ascii_of_nat 59) then EmptyString else String c (beforeSemicolon rest)
  end.

Fixpoint trimStart (s : string) : string :=
  match s with
  | EmptyString => EmptyString
  | String c rest => if Ascii.is_space c then trimStart rest else s
  end.

Definition trim (s : string) : string :=
  String.rev (trimStart (String.rev (trimStart s))).

Definition lowerAscii (c : Ascii.ascii) : Ascii.ascii :=
  let n := Ascii.nat_of_ascii c in
  if ((65 <=? n) && (n <=? 90))%nat then Ascii.ascii_of_nat (n + 32) else c.

Fixpoint toLowerCase (s : string) : string :=
  match s with
  | EmptyString => EmptyString
  | String c rest => String (lowerAscii c) (toLowerCase rest)
  end.

(** [mimeType.split(';')[0]?.trim().toLowerCase()] *)
Definition normalizeMimeType (mimeType : string) : string :=
  toLowerCase (trim (beforeSemicolon mimeType)).

(** [x || fallback] on an optional string *)
Definition orElse (x : option string) (fallback : string) : string :=
  match x with
  | Some s => if truthy s then s else fallback
  | None => fallback
  end.

(** [Math.round] *)
Definition round (q : Q) : Z := Qfloor (q + (1 # 2)).

(** Truthiness of an optional number. *)
Definition truthyNumber (q : option Q) : bool :=
  match q with
  | Some x => negb (Qeq_bool x 0)
  | None => false
  end.

(** *** lib/audio/ffmpeg.ts *)

Definition withTempTranscodeToWav16kMono {T} (env : Env)
    (url inputMimeType : string) (fn : string -> string -> Exn + T)
    : Exn + T :=
  match transcodeUrlToWav16kMono env url inputMimeType with
  | inl e => inl e
  | inr buffer =>
      let r := fn buffer "audio/wav" in
      match removeTempDir env with
      | Some e => inl e
      | None => r
      end
  end.

(** *** The queues *)

Definition transcriptionQueue_add (env : Env) (data : TranscriptionJobData)
    : M unit :=
  fun w =>
    let w1 := logEvent w (EnqueueAttempted TRANSCRIBE (tJobId data)) in
    match queueAdd env TRANSCRIBE (tJobId data) with
    | Some e => Throw e w1
    | None =>
        Ok tt {| db := db w1;
                 transcriptionQueue := transcriptionQueue w1 ++ [data];
                 debriefQueue := debriefQueue w1; trace := trace w1 |}
    end.

Definition debriefQueue_add (env : Env) (data : DebriefJobData) : M unit :=
  fun w =>
    let w1 := logEvent w (EnqueueAttempted DEBRIEF (dJobId data)) in
    match queueAdd env DEBRIEF (dJobId data) with
    | Some e => Throw e w1
    | None =>
        Ok tt {| db := db w1;
                 transcriptionQueue := transcriptionQueue w1;
                 debriefQueue := debriefQueue w1 ++ [data]; trace := trace w1 |}
    end.

(** [enqueueTranscriptionJob], [enqueueDebriefJob]: the queue job id
    they return is the one they pass as [jobId]. *)
Definition enqueueTranscriptionJob (env : Env) (data : TranscriptionJobData)
    : M string :=
  transcriptionQueue_add env data ;;;
  ret ("transcribe-" +:+ tRecordingId data +:+ "-" +:+ pretty (now env)).

Definition enqueueDebriefJob (env : Env) (data : DebriefJobData) : M string :=
  debriefQueue_add env data ;;;
  ret ("debrief-" +:+ dRecordingId data +:+ "-" +:+ pretty (now env)).

(** *** [updateJobStatus] (the same function in both queue files) *)

Definition updateJobStatus (env : Env) (jobId : nat) (s : JobStatus)
    (err : option string) : M unit :=
  let data :=
    {| dataJobStatus := s;
       dataStartedAt :=
         match s with
         | job_running => Some (now env)
         | _ => None
         end;
       dataCompletedAt :=
         match s with
         | job_complete | job_failed => Some (now env)
         | _ => None
         end;
       dataError :=
         match err with
         | Some e => if truthy e then Some e else None
         | None => None
         end |} in
  db_job_update jobId data.

(** The [catch (error)] block, the same in both workers. *)
Definition onWorkerError {A} (env : Env) (rid : string) (jobId : nat)
    (error : Exn) : M A :=
  updateJobStatus env jobId job_failed (Some (messageOr "Unknown error" error)) ;;;
  db_recording_update rid (statusData failed) ;;;
  throw error.

(** *** The transcription worker (src/unnamed/part_002) *)

Record TranscriptionResult := {
  rTranscriptId : nat;
  rText : string;
  rSegmentCount : nat;
  rLanguage : string
}.

(** Step 3: the provider call, through ffmpeg when that is switched on
    and the input is webm or ogg. *)
Definition transcribeAudio (env : Env) (downloadUrl mimeType : string)
    : Exn + ProviderTranscription :=
  let normalizedMime := normalizeMimeType mimeType in
  if ENABLE_FFMPEG_TRANSCODE env
     && (String.eqb normalizedMime "audio/webm"
         || String.eqb normalizedMime "audio/ogg")
  then withTempTranscodeToWav16kMono env downloadUrl normalizedMime
         (fun buffer outMime => transcribe env (BufferSource buffer outMime))
  else transcribe env (UrlSource downloadUrl mimeType).

(** Step 4: the upsert of the provider output (lines 70 to 83). *)
Definition persistTranscript (recordingId : string)
    (transcriptionResult : ProviderTranscription) : M Transcript :=
  db_transcript_upsert recordingId (pText transcriptionResult)
    (pSegments transcriptionResult) (pLanguage transcriptionResult).

(** Steps 1 to 5 of the [try] block (lines 37 to 95). *)
Definition transcriptionSteps1to5 (env : Env) (data : TranscriptionJobData)
    : M (Transcript * ProviderTranscription) :=
  let recordingId := tRecordingId data in
  let jobId := tJobId data in
  updateJobStatus env jobId job_running None ;;;
  awaitUnit (updateProgress env 10) ;;;
  downloadUrl <- await (getPresignedDownloadUrl env (tObjectKey data)) ;
  awaitUnit (updateProgress env 20) ;;;
  transcriptionResult <- await (transcribeAudio env downloadUrl (tMimeType data)) ;
  awaitUnit (updateProgress env 70) ;;;
  transcript <- persistTranscript recordingId transcriptionResult ;
  (if truthyNumber (pDuration transcriptionResult) then
     db_recording_update recordingId
       {| dataStatus := None; dataObjectKey := None; dataFileSize := None;
          dataDuration := round <$> pDuration transcriptionResult |} ;;;
     ret tt
   else ret tt) ;;;
  awaitUnit (updateProgress env 80) ;;;
  updateJobStatus env jobId job_complete None ;;;
  ret (transcript, transcriptionResult).

(** Step 6 and the return (lines 97 to 137). *)
Definition transcriptionStep6 (env : Env) (data : TranscriptionJobData)
    (transcript : Transcript) (transcriptionResult : ProviderTranscription)
    : M TranscriptionResult :=
  let recordingId := tRecordingId data in
  recording <- db_recording_findUnique recordingId ;
  match recording with
  | Some recording =>
      debriefDbJob <- db_job_create recordingId DEBRIEF ;
      debriefQueue_add env
        {| dRecordingId := recordingId;
           dJobId := debriefDbJob;
           dTranscriptId := transcriptId transcript;
           dTranscriptText := pText transcriptionResult;
           dRecordingMode := mode recording;
           dRecordingTitle := title recording;
           dUserId := tUserId data |}
  | None => ret tt
  end ;;;
  awaitUnit (updateProgress env 100) ;;;
  ret {| rTranscriptId := transcriptId transcript;
         rText := pText transcriptionResult;
         rSegmentCount := length (default [] (pSegments transcriptionResult));
         rLanguage := pLanguage transcriptionResult |}.

Definition transcriptionTry (env : Env) (data : TranscriptionJobData)
    : M TranscriptionResult :=
  r <- transcriptionSteps1to5 env data ;
  transcriptionStep6 env data r.1 r.2.

(** The processor function [startTranscriptionWorker] gives to the
    Worker. *)
Definition transcriptionProcessor (env : Env) (data : TranscriptionJobData)
    : M TranscriptionResult :=
  tryCatch (transcriptionTry env data)
           (onWorkerError env (tRecordingId data) (tJobId data)).

(** [retryTranscriptionJob] *)
Definition retryTranscriptionJob (env : Env) (recordingId : string)
    : M (option string) :=
  recording <- db_recording_findUnique recordingId ;
  match recording with
  | None => ret None
  | Some recording =>
      match objectKey recording with
      | None => ret None
      | Some key =>
          if negb (truthy key) then ret None
          else
            db_recording_update recordingId (statusData processing) ;;;
            dbJob <- db_job_create recordingId TRANSCRIBE ;
            ticket <- enqueueTranscriptionJob env
                        {| tRecordingId := recordingId;
                           tJobId := dbJob;
                           tObjectKey := key;
                           tMimeType := orElse (mimeType recording) "audio/mpeg";
                           tUserId := userId recording |} ;
            ret (Some ticket)
      end
  end.

(** *** The debrief worker (queues/debrief.queue.ts) *)

Record DebriefResult := {
  rDebriefId : nat;
  rMarkdown : string;
  rSectionCount : nat
}.

Definition debriefTry (env : Env) (data : DebriefJobData) : M DebriefResult :=
  let recordingId := dRecordingId data in
  let jobId := dJobId data in
  updateJobStatus env jobId job_running None ;;;
  awaitUnit (updateProgress env 10) ;;;
  debriefResult <- await (generateDebrief env (dTranscriptText data)
                            (dRecordingMode data) (dRecordingTitle data)) ;
  awaitUnit (updateProgress env 70) ;;;
  debrief <- db_debrief_upsert recordingId (pMarkdown debriefResult)
               (pSections debriefResult) ;
  awaitUnit (updateProgress env 85) ;;;
  updateJobStatus env jobId job_complete None ;;;
  db_recording_update recordingId (statusData complete) ;;;
  awaitUnit (updateProgress env 100) ;;;
  ret {| rDebriefId := debriefId debrief;
         rMarkdown := pMarkdown debriefResult;
         rSectionCount := length (pSections debriefResult) |}.

Definition debriefProcessor (env : Env) (data : DebriefJobData)
    : M DebriefResult :=
  tryCatch (debriefTry env data)
           (onWorkerError env (dRecordingId data) (dJobId data)).

(** [retryDebriefJob] *)
Definition retryDebriefJob (env : Env) (recordingId : string)
    : M (option string) :=
  fun w =>
    match recordings (db w) !! recordingId, transcriptOf recordingId (db w) with
    | Some recording, Some transcript =>
        (db_recording_update recordingId (statusData processing) ;;;
         debriefDbJob <- db_job_create recordingId DEBRIEF ;
         ticket <- enqueueDebriefJob env
                     {| dRecordingId := recordingId;
                        dJobId := debriefDbJob;
                        dTranscriptId := transcriptId transcript;
                        dTranscriptText := text transcript;
                        dRecordingMode := mode recording;
                        dRecordingTitle := title recording;
                        dUserId := userId recording |} ;
         ret (Some ticket)) w
    | _, _ => Ok None w
    end.

(** *** lib/storage.ts *)

(** [objectExists]: [headObject env key] is [None] when the HeadObject
    command succeeds, and the name of the error with the error when it
    fails. *)
Definition objectExists (env : Env) (key : string) : Exn + bool :=
  match headObject env key with
  | None => inr true
  | Some (name, e) => if String.eqb name "NotFound" then inr false else inl e
  end.

(** *** services/recordings.service.ts *)

Record CreateRecordingInput := {
  inUserId : string;
  inTitle : string;
  inMode : string;
  inOriginalFilename : option string;
  inMimeType : string;
  inFileSize : option Z
}.

(** [createRecording]; [rid] is the id Prisma generates. *)
Definition createRecording (rid : string) (data : CreateRecordingInput)
    : M Recording :=
  db_recording_create rid
    {| id := rid; userId := inUserId data; title := inTitle data;
       mode := inMode data; status := pending; objectKey := None;
       originalFilename := inOriginalFilename data;
       mimeType := Some (inMimeType data);
       fileSize := inFileSize data; duration := None |}.

Definition setRecordingObjectKey (rid key : string) : M Recording :=
  db_recording_update rid
    {| dataStatus := None; dataObjectKey := Some key;
       dataFileSize := None; dataDuration := None |}.

Definition completeUpload (rid : string) (size : option Z) : M Recording :=
  db_recording_update rid
    {| dataStatus := Some uploaded; dataObjectKey := None;
       dataFileSize := size; dataDuration := None |}.

(** A Recording with the relations [include] asked for. *)
Record RecordingWithRelations := {
  recording : Recording;
  transcript : option Transcript;
  debrief : option Debrief
}.

Definition getRecordingByUser (rid uid : string) (includeRelations : bool)
    : M (option RecordingWithRelations) :=
  fun w =>
    match db_recording_findFirst rid uid w with
    | Ok (Some r) w' =>
        Ok (Some {| recording := r;
                    transcript :=
                      if includeRelations then transcriptOf rid (db w') else None;
                    debrief :=
                      if includeRelations then debriefOf rid (db w') else None |})
           w'
    | Ok None w' => Ok None w'
    | Throw e w' => Throw e w'
    end.

Definition updateRecordingStatus (rid : string) (s : RecordingStatus)
    : M Recording :=
  db_recording_update rid (statusData s).

(** [saveTranscript]; neither statement of the transaction can reject
    here, so the transaction is their sequence. *)
Definition saveTranscript (rid : string) (newText : string)
    (newSegments : option (list TranscriptSegment)) (newLanguage : string)
    : M unit :=
  db_transcript_upsert rid newText newSegments newLanguage ;;;
  db_recording_updateMany rid processing (statusData complete) ;;;
  ret tt.

Definition saveDebrief (rid : string) (newMarkdown : string)
    (newSections : list DebriefSection) : M unit :=
  db_debrief_upsert rid newMarkdown newSections ;;;
  ret tt.

(** Modelled from the spec: services/jobs.service.ts is not among the
    sources; the spec gives [createJob(recordingId, type) -> Job] with
    status pending. *)
Definition createJob (rid : string) (ty : JobType) : M nat :=
  db_job_create rid ty.

(** *** The routes of recordingsRoutes that schedule work *)

Inductive Payload :=
  | ErrorPayload (error message : string)
  | CompleteUploadPayload (recordingId : string) (jobId : nat)
      (status message : string)
  | RetryPayload (recordingId queueJobId message : string).

Record Reply := {
  code : Z;
  payload : Payload
}.

(** A request: the [x-user-id] header, the [:id] parameter and what
    [completeUploadBodySchema.safeParse] makes of the body (the joined
    issues, or the optional [fileSize]). *)
Record Request := {
  xUserId : option string;
  paramId : string;
  parsedBody : string + option Z
}.

Definition reply (c : Z) (p : Payload) : M Reply :=
  ret {| code := c; payload := p |}.

Definition unauthorized : M Reply :=
  reply 401 (ErrorPayload "Unauthorized" "Missing x-user-id header").

Definition notFound : M Reply :=
  reply 404 (ErrorPayload "Not Found" "Recording not found").

(** [const userId = request.headers['x-user-id']; if (!userId) ...] *)
Definition headerUserId (req : Request) : option string :=
  match xUserId req with
  | Some u => if truthy u then Some u else None
  | None => None
  end.

(** POST /recordings/:id/complete-upload *)
Definition completeUploadRoute (env : Env) (req : Request) : M Reply :=
  match headerUserId req with
  | None => unauthorized
  | Some uid =>
      let rid := paramId req in
      match parsedBody req with
      | inl issues => reply 400 (ErrorPayload "Validation Error" issues)
      | inr size =>
          tryCatch
            (found <- getRecordingByUser rid uid false ;
             match found with
             | None => notFound
             | Some rec =>
                 let r := recording rec in
                 if negb (bool_decide (status r = pending)) then
                   reply 400 (ErrorPayload "Invalid State"
                     ("Recording is in '" +:+ statusName (status r)
                      +:+ "' status, expected 'pending'"))
                 else
                   match objectKey r with
                   | Some key =>
                       if negb (truthy key) then
                         reply 400 (ErrorPayload "Invalid State"
                                      "Recording has no object key")
                       else
                         present <- await (objectExists env key) ;
                         if negb present then
                           reply 400 (ErrorPayload "Upload Not Found"
                             "File not found in storage. Please upload the file first.")
                         else
                           completeUpload rid size ;;;
                           dbJob <- createJob rid TRANSCRIBE ;
                           enqueueTranscriptionJob env
                             {| tRecordingId := rid;
                                tJobId := dbJob;
                                tObjectKey := key;
                                tMimeType := orElse (mimeType r) "audio/mpeg";
                                tUserId := uid |} ;;;
                           updateRecordingStatus rid processing ;;;
                           reply 200 (CompleteUploadPayload rid dbJob "processing"
                             "Upload complete. Transcription job queued.")
                   | None =>
                       reply 400 (ErrorPayload "Invalid State"
                                    "Recording has no object key")
                   end
             end)
            (fun _ => reply 500 (ErrorPayload "Internal Server Error"
                                   "Failed to complete upload"))
      end
  end.

(** POST /recordings/:id/retry-debrief *)
Definition retryDebriefRoute (env : Env) (req : Request) : M Reply :=
  match headerUserId req with
  | None => unauthorized
  | Some uid =>
      let rid := paramId req in
      tryCatch
        (found <- getRecordingByUser rid uid true ;
         match found with
         | None => notFound
         | Some rec =>
             match transcript rec with
             | None =>
                 reply 400 (ErrorPayload "No Transcript"
                   "Recording must have a transcript before generating a debrief")
             | Some _ =>
                 queueJobId <- retryDebriefJob env rid ;
                 match queueJobId with
                 | Some ticket =>
                     if truthy ticket then
                       reply 200 (RetryPayload rid ticket "Debrief job requeued")
                     else
                       reply 400 (ErrorPayload "Retry Failed"
                                    "Failed to enqueue debrief job")
                 | None =>
                     reply 400 (ErrorPayload "Retry Failed"
                                  "Failed to enqueue debrief job")
                 end
             end
         end)
        (fun _ => reply 500 (ErrorPayload "Internal Server Error"
                               "Failed to retry debrief"))
  end.

(** POST /recordings/:id/retry-transcription *)
Definition retryTranscriptionRoute (env : Env) (req : Request) : M Reply :=
  match headerUserId req with
  | None => unauthorized
  | Some uid =>
      let rid := paramId req in
      tryCatch
        (found <- getRecordingByUser rid uid false ;
         match found with
         | None => notFound
         | Some rec =>
             if negb (truthy (orElse (objectKey (recording rec)) "")) then
               reply 400 (ErrorPayload "No File"
                            "Recording has no associated file")
             else
               queueJobId <- retryTranscriptionJob env rid ;
               match queueJobId with
               | Some ticket =>
                   if truthy ticket then
                     reply 200 (RetryPayload rid ticket
                                  "Transcription job requeued")
                   else
                     reply 400 (ErrorPayload "Retry Failed"
                                  "Failed to enqueue transcription job")
               | None =>
                   reply 400 (ErrorPayload "Retry Failed"
                                "Failed to enqueue transcription job")
               end
         end)
        (fun _ => reply 500 (ErrorPayload "Internal Server Error"
                               "Failed to retry transcription"))
  end.

(** *** The pipeline as a transition system

    The operations that drive a Recording through the pipeline. A worker
    runs a payload that was put on its queue; the queue may hand the same
    payload to the worker again (its own retry policy), so a payload stays
    available. *)

Inductive Op :=
  | CreateRecording (rid : string) (data : CreateRecordingInput)
  | SetRecordingObjectKey (rid key : string)
  | CompleteUpload (req : Request)
  | RunTranscription (data : TranscriptionJobData)
  | RunDebrief (data : DebriefJobData)
  | RetryDebrief (req : Request)
  | RetryTranscription (req : Request).

Definition enabled (op : Op) (w : World) : Prop :=
  match op with
  | RunTranscription data => data ∈ transcriptionQueue w
  | RunDebrief data => data ∈ debriefQueue w
  | _ => True
  end.

Definition run (env : Env) (op : Op) (w : World) : World :=
  match op with
  | CreateRecording rid data => world (createRecording rid data w)
  | SetRecordingObjectKey rid key => world (setRecordingObjectKey rid key w)
  | CompleteUpload req => world (completeUploadRoute env req w)
  | RunTranscription data => world (transcriptionProcessor env data w)
  | RunDebrief data => world (debriefProcessor env data w)
  | RetryDebrief req => world (retryDebriefRoute env req w)
  | RetryTranscription req => world (retryTranscriptionRoute env req w)
  end.

Definition emptyDb : Db :=
  {| recordings := ∅; jobs := []; transcripts := []; debriefs := [] |}.

Definition emptyWorld : World :=
  {| db := emptyDb; transcriptionQueue := []; debriefQueue := []; trace := [] |}.

Inductive reachable : World -> Prop :=
  | reachable_empty : reachable emptyWorld
  | reachable_step (env : Env) (op : Op) (w : World) :
      reachable w -> enabled op w -> reachable (run env op w).

(** *** Observations used in the statements *)

Definition statusOf (rid : string) (w : World) : option RecordingStatus :=
  status <$> recordings (db w) !! rid.

Definition hasTranscript (rid : string) (w : World) : Prop :=
  is_Some (transcriptOf rid (db w)).

Definition hasDebrief (rid : string) (w : World) : Prop :=
  is_Some (debriefOf rid (db w)).

(** The events an operation added to the trace. *)
Definition added (w w' : World) (evs : list Event) : Prop :=
  trace w' = trace w ++ evs.

(** Every enqueue in [evs] comes after the creation of its Job row. *)
Definition JobRowBeforeEnqueue (evs : list Event) : Prop :=
  forall (i : nat) (ty : JobType) (jobId : nat),
    evs !! i = Some (EnqueueAttempted ty jobId) ->
    exists i', (i' < i)%nat /\ evs !! i' = Some (JobRowCreated jobId ty).

(** Every change to [processing] in [evs] comes after an enqueue. *)
Definition EnqueueBeforeProcessing (evs : list Event) : Prop :=
  forall (i : nat) (rid : string),
    evs !! i = Some (RecordingStatusSet rid processing) ->
    exists i' ty jobId,
      (i' < i)%nat /\ evs !! i' = Some (EnqueueAttempted ty jobId).

(** Every change to [complete] in [evs] comes after the write of the
    Debrief row of that recording. *)
Definition CompleteAfterDebriefPersisted (evs : list Event) : Prop :=
  forall (i : nat) (rid : string),
    evs !! i = Some (RecordingStatusSet rid complete) ->
    exists i', (i' < i)%nat /\ evs !! i' = Some (DebriefPersisted rid).

(** No two rows of the Transcript table are for the same recording (the
    unique constraint the upsert is keyed on). *)
Definition uniqueTranscripts (d : Db) : Prop :=
  NoDup (transcriptRecordingId <$> transcripts d).

End Pipeline.

(* ===================================================================== *)
(** ** Auxiliary definitions for the statements *)
(* ===================================================================== *)

(** The delays a call of [uploadToPresignedUrl] sleeps when every
    transfer is retried: the k-th (from 0) follows attempt [k + 1]. *)
Definition expectedSleeps (t : Upload.Transport) (from count : nat) : list Z :=
  (fun k => Upload.getBackoffMs (Upload.random t k) (Z.of_nat k + 1))
    <$> seq from count.

(** What a call that used up [n] retries leaves behind: [n + 1]
    transfers, a non-ok result with [attempts = n + 1], and [n] delays of
    which the k-th is [500 * 2^k] plus a jitter below 200, so that they
    increase strictly. *)
Definition RetriedToExhaustion (n : Z) (r : Upload.Run) : Prop :=
  Z.of_nat (Upload.transfers r) = n + 1 /\
  Upload.ok (Upload.result r) = false /\
  Upload.attempts (Upload.result r) = n + 1 /\
  Z.of_nat (length (Upload.sleeps r)) = n /\
  (forall (i : nat) (d : Z), Upload.sleeps r !! i = Some d ->
     500 * 2 ^ Z.of_nat i <= d < 500 * 2 ^ Z.of_nat i + 200) /\
  Upload.StrictlyIncreasing (Upload.sleeps r).

(** A browser whose every transfer ends the same way and whose every
    random draw is one half. *)
Definition always (o : Upload.XhrOutcome) : Upload.Transport :=
  {| Upload.xhr := fun _ => o; Upload.random := fun _ => (1 # 2)%Q |}.

(** What the fingerprint of a fetch is said to stand for: the status
    (none before the first fetch has data), whether there is a transcript
    and whether there is a debrief. *)
Definition sameObservation (d1 d2 : option Polling.RecordingWithRelations)
    : Prop :=
  from_option Polling.status "" d1 = from_option Polling.status "" d2 /\
  (is_Some (d1 ≫= Polling.transcript) <-> is_Some (d2 ≫= Polling.transcript)) /\
  (is_Some (d1 ≫= Polling.debrief) <-> is_Some (d2 ≫= Polling.debrief)).

(** A recording page that keeps showing a Recording in [processing]
    with neither artifact. *)
Definition stillProcessing : option Polling.RecordingWithRelations :=
  Some {| Polling.status := "processing"; Polling.transcript := None;
          Polling.debrief := None |}.

Definition seenProcessing : Polling.Refs :=
  {| Polling.attemptRef := 0; Polling.timeoutRef := None;
     Polling.lastKeyRef := "processing-f-f" |}.

(** The same page once the Transcript is there, and the refs of a hook
    that has polled [stillProcessing] three times. *)
Definition transcribed : option Polling.RecordingWithRelations :=
  Some {| Polling.status := "processing"; Polling.transcript := Some "hello";
          Polling.debrief := None |}.

Definition polledThrice : Polling.Refs :=
  {| Polling.attemptRef := 3; Polling.timeoutRef := None;
     Polling.lastKeyRef := Polling.fingerprint stillProcessing |}.

(** A table has a Transcript (a Debrief) for a recording. *)
Definition hasT (rid : string) (ts : list Pipeline.Transcript) : Prop :=
  is_Some (find (Pipeline.forRecording rid) ts).

Definition hasD (rid : string) (ds : list Pipeline.Debrief) : Prop :=
  is_Some (find (Pipeline.debriefFor rid) ds).

(** The invariant of the pipeline, on the parts of the world it reads:
    a [complete] Recording has both artifacts, and every Debrief payload
    on the queue is for a recording that has a Transcript. *)
Definition InvC (recs : gmap string Pipeline.Recording)
    (ts : list Pipeline.Transcript) (ds : list Pipeline.Debrief)
    (dq : list Pipeline.DebriefJobData) : Prop :=
  (forall rid r, recs !! rid = Some r ->
     Pipeline.status r = Pipeline.complete -> hasT rid ts /\ hasD rid ds) /\
  (forall d, d ∈ dq -> hasT (Pipeline.dRecordingId d) ts).

Definition Inv (w : Pipeline.World) : Prop :=
  InvC (Pipeline.recordings (Pipeline.db w))
       (Pipeline.transcripts (Pipeline.db w))
       (Pipeline.debriefs (Pipeline.db w))
       (Pipeline.debriefQueue w).

(** The Transcript table and the Debrief table hold one row per
    recording at most. *)
Definition OneRowPerRecording (w : Pipeline.World) : Prop :=
  Pipeline.uniqueTranscripts (Pipeline.db w) /\
  NoDup (Pipeline.debriefRecordingId <$> Pipeline.debriefs (Pipeline.db w)).

(** The caller owns no Recording of that id: there is none, or it is
    another user's. *)
Definition notOwned (w : Pipeline.World) (rid uid : string) : Prop :=
  forall r, Pipeline.recordings (Pipeline.db w) !! rid = Some r ->
            Pipeline.userId r <> uid.

(** Every payload on a queue names a Job row and a Recording that
    exist. *)
Definition QueuedRowsExist (w : Pipeline.World) : Prop :=
  (forall d, d ∈ Pipeline.transcriptionQueue w ->
     (Pipeline.tJobId d < length (Pipeline.jobs (Pipeline.db w)))%nat /\
     is_Some (Pipeline.recordings (Pipeline.db w) !! Pipeline.tRecordingId d)) /\
  (forall d, d ∈ Pipeline.debriefQueue w ->
     (Pipeline.dJobId d < length (Pipeline.jobs (Pipeline.db w)))%nat /\
     is_Some (Pipeline.recordings (Pipeline.db w) !! Pipeline.dRecordingId d)).

(** *** A concrete run of the pipeline, used to instantiate statements *)

Module Demo.
Import Pipeline.

Definition segment : TranscriptSegment :=
  {| segStart := 0; segEnd := 1; segText := "hello"; speaker := None |}.

Definition providerOutput : ProviderTranscription :=
  {| pText := "hello"; pSegments := Some [segment]; pLanguage := "en";
     pDuration := None |}.

(** Collaborators that all succeed. *)
Definition env0 : Env :=
  {| now := 0%nat;
     ENABLE_FFMPEG_TRANSCODE := false;
     getPresignedDownloadUrl := fun key => inr ("https://storage/" +:+ key);
     transcodeUrlToWav16kMono := fun _ _ => inr "wav";
     removeTempDir := None;
     transcribe := fun _ => inr providerOutput;
     generateDebrief := fun _ _ _ =>
       inr {| pMarkdown := "summary"; pSections := [] |};
     headObject := fun _ => None;
     queueAdd := fun _ _ => None;
     updateProgress := fun _ => None |}.

(** The same, but the summary provider times out. *)
Definition envDebriefFails : Env :=
  {| now := 0%nat;
     ENABLE_FFMPEG_TRANSCODE := false;
     getPresignedDownloadUrl := getPresignedDownloadUrl env0;
     transcodeUrlToWav16kMono := transcodeUrlToWav16kMono env0;
     removeTempDir := None;
     transcribe := transcribe env0;
     generateDebrief := fun _ _ _ => inl (ErrorObj "provider timeout");
     headObject := fun _ => None;
     queueAdd := fun _ _ => None;
     updateProgress := fun _ => None |}.

(** The same, but the summary provider throws an [Error] whose message
    is empty. *)
Definition envEmptyMessage : Env :=
  {| now := 0%nat;
     ENABLE_FFMPEG_TRANSCODE := false;
     getPresignedDownloadUrl := getPresignedDownloadUrl env0;
     transcodeUrlToWav16kMono := transcodeUrlToWav16kMono env0;
     removeTempDir := None;
     transcribe := transcribe env0;
     generateDebrief := fun _ _ _ => inl (ErrorObj "");
     headObject := fun _ => None;
     queueAdd := fun _ _ => None;
     updateProgress := fun _ => None |}.

(** The same as [env0], but the object is not in storage. *)
Definition envNoObject : Env :=
  {| now := 0%nat;
     ENABLE_FFMPEG_TRANSCODE := false;
     getPresignedDownloadUrl := getPresignedDownloadUrl env0;
     transcodeUrlToWav16kMono := transcodeUrlToWav16kMono env0;
     removeTempDir := None;
     transcribe := transcribe env0;
     generateDebrief := generateDebrief env0;
     headObject := fun _ => Some ("NotFound", ErrorObj "NotFound");
     queueAdd := fun _ _ => None;
     updateProgress := fun _ => None |}.

Definition input : CreateRecordingInput :=
  {| inUserId := "u1"; inTitle := "Demo"; inMode := "meeting";
     inOriginalFilename := Some "Demo.webm"; inMimeType := "audio/webm";
     inFileSize := None |}.

Definition request : Request :=
  {| xUserId := Some "u1"; paramId := "r1";
     parsedBody := inr (Some 2097152) |}.

Definition transcriptionData : TranscriptionJobData :=
  {| tRecordingId := "r1"; tJobId := 0%nat; tObjectKey := "u1/r1.webm";
     tMimeType := "audio/webm"; tUserId := "u1" |}.

Definition debriefData : DebriefJobData :=
  {| dRecordingId := "r1"; dJobId := 1%nat; dTranscriptId := 0%nat;
     dTranscriptText := "hello"; dRecordingMode := "meeting";
     dRecordingTitle := "Demo"; dUserId := "u1" |}.

(** create, set the object key, complete the upload, transcribe, then
    the debrief succeeds ([wComplete]) or fails ([wDebriefFailed]). *)
Definition wPending : World :=
  run env0 (SetRecordingObjectKey "r1" "u1/r1.webm")
    (run env0 (CreateRecording "r1" input) emptyWorld).

Definition wProcessing : World := run env0 (CompleteUpload request) wPending.

Definition wTranscribed : World :=
  run env0 (RunTranscription transcriptionData) wProcessing.

Definition wComplete : World := run env0 (RunDebrief debriefData) wTranscribed.

Definition wDebriefFailed : World :=
  run envDebriefFails (RunDebrief debriefData) wTranscribed.

(** The same as [env0], but the transcription provider answers without
    segments. *)
Definition outputWithoutSegments : ProviderTranscription :=
  {| pText := "bonjour"; pSegments := None; pLanguage := "fr";
     pDuration := None |}.

Definition envNoSegments : Env :=
  {| now := 0%nat;
     ENABLE_FFMPEG_TRANSCODE := false;
     getPresignedDownloadUrl := getPresignedDownloadUrl env0;
     transcodeUrlToWav16kMono := transcodeUrlToWav16kMono env0;
     removeTempDir := None;
     transcribe := fun _ => inr outputWithoutSegments;
     generateDebrief := generateDebrief env0;
     headObject := fun _ => None;
     queueAdd := fun _ _ => None;
     updateProgress := fun _ => None |}.

(** After the transcription of the demo run: retry-transcription, whose
    payload names the new TRANSCRIBE Job row, and the run of that payload
    with the provider that answers without segments. *)
Definition retranscriptionData : TranscriptionJobData :=
  {| tRecordingId := "r1"; tJobId := 2%nat; tObjectKey := "u1/r1.webm";
     tMimeType := "audio/webm"; tUserId := "u1" |}.

Definition wRetried : World :=
  run env0 (RetryTranscription request) wTranscribed.

Definition wRetranscribed : World :=
  run envNoSegments (RunTranscription retranscriptionData) wRetried.

(** The world of the demo run when steps 1 to 5 of the transcription
    worker are done, and that world with the Recording row deleted before
    step 6 looks for it. *)
Definition wAfterStep5 : World :=
  world (transcriptionSteps1to5 env0 transcriptionData wProcessing).

Definition wRecordingDeleted : World :=
  withDb wAfterStep5
    (setRecordings (db wAfterStep5)
       (delete "r1" (recordings (db wAfterStep5)))).

Definition transcriptRow : Transcript :=
  {| transcriptId := 0%nat; transcriptRecordingId := "r1"; text := "hello";
     segments := Some [segment]; language := "en" |}.

End Demo.


(** The Job row [updateJobStatus] leaves in place of [j]. *)
Definition jobAfter (env : Pipeline.Env) (s : Pipeline.JobStatus)
    (err : option string) (j : Pipeline.Job) : Pipeline.Job :=
  {| Pipeline.jobRecordingId := Pipeline.jobRecordingId j;
     Pipeline.type := Pipeline.type j;
     Pipeline.jobStatus := s;
     Pipeline.error :=
       match err with
       | Some e => if truthy e then Some e else Pipeline.error j
       | None => Pipeline.error j
       end;
     Pipeline.startedAt :=
       match s with
       | Pipeline.job_running => Some (Pipeline.now env)
       | _ => Pipeline.startedAt j
       end;
     Pipeline.completedAt :=
       match s with
       | Pipeline.job_complete | Pipeline.job_failed => Some (Pipeline.now env)
       | _ => Pipeline.completedAt j
       end |}.

(* ===================================================================== *)
(** * Properties *)
(* ===================================================================== *)

(** ** Random draws and jitter *)

Lemma jitter_range (r : Q) (n : Z) :
  (0 <= r)%Q -> (r < 1)%Q -> 0 < n ->
  0 <= Qfloor (r * inject_Z n) < n.
Proof.
  intros H0 H1 Hn. split.
  - change 0 with (Qfloor (inject_Z 0)). apply Qfloor_resp_le.
    apply Qmult_le_0_compat; [exact H0|].
    change 0%Q with (inject_Z 0). rewrite <- Zle_Qle. lia.
  - rewrite Zlt_Qlt.
    eapply Qle_lt_trans; [apply Qfloor_le|].
    assert (r * inject_Z n < 1 * inject_Z n)%Q as Hlt.
    { apply Qmult_lt_compat_r; [|exact H1].
      change 0%Q with (inject_Z 0). rewrite <- Zlt_Qlt. exact Hn. }
    rewrite Qmult_1_l in Hlt. exact Hlt.
Qed.

(** ** Upload transport *)

Section UploadProperties.
Import Upload.

Variable t : Transport.
Variable maxRetries : Z.

Lemma expectedSleeps_S (from count : nat) :
  expectedSleeps t from (S count) =
  getBackoffMs (random t from) (Z.of_nat from + 1)
    :: expectedSleeps t (S from) count.
Proof. reflexivity. Qed.

Hypothesis all_503 : forall k, exists etag, xhr t k = Loaded 503 etag.

Lemma uploadOnce_503 (k : nat) :
  uploadOnce (xhr t k) =
  UploadFail (Some 503) http_error true "Upload failed with status 503" 1.
Proof. destruct (all_503 k) as [etag ->]. reflexivity. Qed.

Lemma uploadLoop_all_503 (n : nat) :
  forall (fuel : nat) (attempt : Z) (lastFailure : option UploadResult)
         (slept : list Z),
    (n < fuel)%nat ->
    0 <= attempt ->
    Z.of_nat n = maxRetries - attempt ->
    Z.of_nat (length slept) = attempt ->
    uploadLoop fuel t maxRetries attempt lastFailure (length slept) slept =
    Some {| result := UploadFail (Some 503) http_error true
                        "Upload failed with status 503" (maxRetries + 1);
            transfers := Z.to_nat (maxRetries + 1);
            sleeps := slept ++ expectedSleeps t (length slept) n |}.
Proof.
  induction n as [|n IH]; intros fuel attempt lastFailure slept Hf Ha Hn Hl;
    (destruct fuel as [|fuel]; [lia|]); cbn [uploadLoop].
  - assert (attempt = maxRetries) as -> by lia.
    rewrite Z.leb_refl, uploadOnce_503. cbn [ok negb orb].
    replace (maxRetries <? maxRetries + 1) with true by (symmetry; apply Z.ltb_lt; lia).
    cbn. f_equal. f_equal.
    + lia.
    + unfold expectedSleeps. cbn. by rewrite app_nil_r.
  - replace (attempt <=? maxRetries) with true by (symmetry; apply Z.leb_le; lia).
    rewrite uploadOnce_503. cbn [ok negb orb].
    replace (maxRetries <? attempt + 1) with false by (symmetry; apply Z.ltb_ge; lia).
    specialize (IH fuel (attempt + 1) 
      (Some (withAttempts (UploadFail (Some 503) http_error true
               "Upload failed with status 503" 1) (attempt + 1)))
      (slept ++ [getBackoffMs (random t (length slept)) (attempt + 1)])).
    rewrite length_app in IH. cbn [length] in IH.
    replace (length slept + 1)%nat with (S (length slept)) in IH by lia.
    rewrite IH by lia.
    rewrite expectedSleeps_S, <- app_assoc. cbn. by rewrite Hl.
Qed.

End UploadProperties.

Lemma getBackoffMs_range (r : Q) (k : nat) :
  (0 <= r)%Q -> (r < 1)%Q ->
  500 * 2 ^ Z.of_nat k <= Upload.getBackoffMs r (Z.of_nat k + 1)
    < 500 * 2 ^ Z.of_nat k + 200.
Proof.
  intros H0 H1. unfold Upload.getBackoffMs.
  replace (Z.max 0 (Z.of_nat k + 1 - 1)) with (Z.of_nat k) by lia.
  pose proof (jitter_range r 200 H0 H1 ltac:(lia)) as Hj.
  change (inject_Z 200) with 200%Q in Hj. lia.
Qed.

Lemma expectedSleeps_lookup (t : Upload.Transport) (n i : nat) (d : Z) :
  expectedSleeps t 0 n !! i = Some d ->
  (i < n)%nat /\ d = Upload.getBackoffMs (Upload.random t i) (Z.of_nat i + 1).
Proof.
  unfold expectedSleeps. rewrite list_lookup_fmap.
  destruct (seq 0 n !! i) as [k|] eqn:Hk; [|discriminate].
  apply lookup_seq in Hk as [-> Hlt]. cbn. intros [= <-]. done.
Qed.

Lemma pow2_doubles (i j : nat) :
  (i < j)%nat -> 2 * 2 ^ Z.of_nat i <= 2 ^ Z.of_nat j.
Proof.
  intros Hij. rewrite <- Z.pow_succ_r by lia.
  apply Z.pow_le_mono_r; lia.
Qed.

Lemma all_503_exhausts_retries (t : Upload.Transport) (n : Z) (fuel : nat) :
  (forall k, (0 <= Upload.random t k)%Q /\ (Upload.random t k < 1)%Q) ->
  (forall k, exists etag, Upload.xhr t k = Upload.Loaded 503 etag) ->
  0 <= n -> (Z.to_nat n < fuel)%nat ->
  exists run,
    Upload.uploadLoop fuel t n 0 None 0%nat [] = Some run /\
    RetriedToExhaustion n run.
Proof.
  intros Hrnd H503 Hn Hfuel.
  pose proof (uploadLoop_all_503 t n H503 (Z.to_nat n) fuel 0 None []
                Hfuel ltac:(lia) ltac:(lia) eq_refl) as Hrun.
  cbn [length app] in Hrun.
  eexists. split; [exact Hrun|].
  unfold RetriedToExhaustion.
  cbn [Upload.transfers Upload.result Upload.sleeps Upload.ok Upload.attempts].
  assert (forall (i : nat) (d : Z),
            expectedSleeps t 0 (Z.to_nat n) !! i = Some d ->
            500 * 2 ^ Z.of_nat i <= d < 500 * 2 ^ Z.of_nat i + 200) as Hrange.
  { intros i d Hd. apply expectedSleeps_lookup in Hd as [_ ->].
    apply getBackoffMs_range; apply Hrnd. }
  split; [lia|]. split; [reflexivity|]. split; [reflexivity|].
  split; [|split; [exact Hrange|]].
  - unfold expectedSleeps. rewrite length_fmap, length_seq. lia.
  - intros i j x y Hij Hx Hy.
    apply Hrange in Hx, Hy. pose proof (pow2_doubles i j Hij).
    assert (0 < 2 ^ Z.of_nat i) by (apply Z.pow_pos_nonneg; lia). lia.
Qed.

Lemma first_403_not_retried (t : Upload.Transport) (n : Z) (fuel : nat) :
  (exists etag, Upload.xhr t 0 = Upload.Loaded 403 etag) ->
  0 <= n -> (0 < fuel)%nat ->
  exists run,
    Upload.uploadLoop fuel t n 0 None 0%nat [] = Some run /\
    Upload.transfers run = 1%nat /\
    Upload.sleeps run = [] /\
    Upload.ok (Upload.result run) = false /\
    Upload.attempts (Upload.result run) = 1.
Proof.
  intros [etag H403] Hn Hfuel.
  destruct fuel as [|fuel]; [lia|].
  cbn [Upload.uploadLoop].
  replace (0 <=? n) with true by (symmetry; apply Z.leb_le; lia).
  rewrite H403. cbn. eexists. repeat split.
Qed.

(** C7. When every transfer is answered with HTTP 503, a call that is
    given [maxRetries = n] issues [n + 1] transfers, sleeps [n] delays of
    which the k-th is [500 * 2^k] plus a jitter below 200 (so they
    increase strictly), and returns a non-ok result with
    [attempts = n + 1]; a call that is given no [maxRetries] does the same
    with 3 retries, that is 4 transfers. When the first transfer is
    answered with HTTP 403, the call issues that one transfer, sleeps
    nothing and returns the non-ok result with [attempts = 1], whatever
    [maxRetries] is. *)
Theorem upload_503_retried_to_exhaustion_403_not_retried
    (t : Upload.Transport) :
  (forall k, (0 <= Upload.random t k)%Q /\ (Upload.random t k < 1)%Q) ->
  ((forall k, exists etag, Upload.xhr t k = Upload.Loaded 503 etag) ->
   (forall (n : Z) (fuel : nat), 0 <= n -> (Z.to_nat n < fuel)%nat ->
      exists run,
        Upload.uploadToPresignedUrl fuel t (Some n) = Some run /\
        RetriedToExhaustion n run) /\
   (forall fuel : nat, (3 < fuel)%nat ->
      exists run,
        Upload.uploadToPresignedUrl fuel t None = Some run /\
        RetriedToExhaustion 3 run))
  /\
  ((exists etag, Upload.xhr t 0 = Upload.Loaded 403 etag) ->
   forall (maxRetries : option Z) (fuel : nat),
     (forall n, maxRetries = Some n -> 0 <= n) -> (0 < fuel)%nat ->
     exists run,
       Upload.uploadToPresignedUrl fuel t maxRetries = Some run /\
       Upload.transfers run = 1%nat /\
       Upload.sleeps run = [] /\
       Upload.ok (Upload.result run) = false /\
       Upload.attempts (Upload.result run) = 1).
Proof.
  intros Hrnd. split.
  - intros H503. split.
    + intros n fuel Hn Hfuel. by apply all_503_exhausts_retries.
    + intros fuel Hfuel. apply all_503_exhausts_retries; [done|done|lia|].
      change (Z.to_nat 3) with 3%nat. lia.
  - intros H403 maxRetries fuel Hmax Hfuel.
    apply first_403_not_retried; [done| |done].
    destruct maxRetries as [n|]; cbn; [by apply Hmax|lia].
Qed.

Lemma upload_503_retried_to_exhaustion_403_not_retried_witness :
  (exists run,
     Upload.uploadToPresignedUrl 4 (always (Upload.Loaded 503 None)) (Some 2)
       = Some run /\
     Upload.transfers run = 3%nat /\
     Upload.attempts (Upload.result run) = 3) /\
  (exists run,
     Upload.uploadToPresignedUrl 5 (always (Upload.Loaded 503 None)) None
       = Some run /\
     Upload.transfers run = 4%nat /\
     Upload.attempts (Upload.result run) = 4) /\
  (exists run,
     Upload.uploadToPresignedUrl 4 (always (Upload.Loaded 403 None)) None
       = Some run /\
     Upload.transfers run = 1%nat /\
     Upload.attempts (Upload.result run) = 1).
Proof.
  split; [|split].
  - destruct (upload_503_retried_to_exhaustion_403_not_retried
                (always (Upload.Loaded 503 None))) as [H _].
    + intros k. cbn. split; [discriminate|reflexivity].
    + destruct (H (fun _ => ex_intro _ None eq_refl)) as [Hsome _].
      destruct (Hsome 2 4%nat) as (run & Hr & Ht & _ & Ha & _); [lia|cbn; lia|].
      exists run. split; [exact Hr|]. split; [lia|exact Ha].
  - destruct (upload_503_retried_to_exhaustion_403_not_retried
                (always (Upload.Loaded 503 None))) as [H _].
    + intros k. cbn. split; [discriminate|reflexivity].
    + destruct (H (fun _ => ex_intro _ None eq_refl)) as [_ Hnone].
      destruct (Hnone 5%nat) as (run & Hr & Ht & _ & Ha & _); [lia|].
      exists run. split; [exact Hr|]. split; [lia|exact Ha].
  - destruct (upload_503_retried_to_exhaustion_403_not_retried
                (always (Upload.Loaded 403 None))) as [_ H].
    + intros k. cbn. split; [discriminate|reflexivity].
    + destruct (H (ex_intro _ None eq_refl) None 4%nat)
        as (run & Hr & Ht & _ & _ & Ha); [discriminate|lia|].
      exists run. auto.
Defined.

(** *** Every run of the upload loop *)

Lemma withAttempts_attempts (r : Upload.UploadResult) (n : Z) :
  Upload.attempts (Upload.withAttempts r n) = n.
Proof. by destruct r. Qed.

Lemma withAttempts_ok (r : Upload.UploadResult) (n : Z) :
  Upload.ok (Upload.withAttempts r n) = Upload.ok r.
Proof. by destruct r. Qed.

(** The loop from any iteration on: it ends within the retries that are
    left, and what it returns counts the transfers made. *)
Lemma uploadLoop_counts (t : Upload.Transport) (n : Z) (left : nat) :
  forall (fuel : nat) (attempt : Z) (lastFailure : option Upload.UploadResult)
         (slept : list Z),
    (left < fuel)%nat ->
    0 <= attempt ->
    Z.of_nat left = n - attempt ->
    Z.of_nat (length slept) = attempt ->
    exists run,
      Upload.uploadLoop fuel t n attempt lastFailure (length slept) slept
        = Some run /\
      Upload.attempts (Upload.result run) = Z.of_nat (Upload.transfers run) /\
      attempt < Z.of_nat (Upload.transfers run) <= n + 1 /\
      S (length (Upload.sleeps run)) = Upload.transfers run.
Proof.
  induction left as [|left IH];
    intros fuel attempt lastFailure slept Hf Ha Hn Hl;
    (destruct fuel as [|fuel]; [lia|]); cbn [Upload.uploadLoop];
    (replace (attempt <=? n) with true by (symmetry; apply Z.leb_le; lia)).
  - destruct (Upload.uploadOnce (Upload.xhr t (length slept)))
      as [st e a|st re rt m a] eqn:Hr; cbn [Upload.ok].
    + eexists. split; [reflexivity|]. cbn. lia.
    + replace (n <? attempt + 1) with true by (symmetry; apply Z.ltb_lt; lia).
      rewrite orb_true_r. eexists. split; [reflexivity|]. cbn. lia.
  - destruct (Upload.uploadOnce (Upload.xhr t (length slept)))
      as [st e a|st re rt m a] eqn:Hr; cbn [Upload.ok].
    + eexists. split; [reflexivity|]. cbn. lia.
    + replace (n <? attempt + 1) with false by (symmetry; apply Z.ltb_ge; lia).
      rewrite orb_false_r. destruct rt; cbn [negb].
      * specialize (IH fuel (attempt + 1)
          (Some (Upload.withAttempts (Upload.UploadFail st re true m a)
                   (attempt + 1)))
          (slept ++ [Upload.getBackoffMs (Upload.random t (length slept))
                       (attempt + 1)])).
        rewrite length_app in IH. cbn [length] in IH.
        replace (length slept + 1)%nat with (S (length slept)) in IH by lia.
        destruct IH as (run & Hrun & Hatt & Hrange & Hsl); [lia..|].
        exists run. split; [exact Hrun|]. split; [exact Hatt|].
        split; [lia|exact Hsl].
      * eexists. split; [reflexivity|]. cbn. lia.
Qed.

(** X1. Every call of [uploadToPresignedUrl] with [maxRetries = n >= 0]
    returns, after at least one and at most [n + 1] transfers; the
    [attempts] field of what it returns is the number of transfers it
    made, and it slept once between any two of them. *)
Theorem upload_result_counts_transfers
    (t : Upload.Transport) (n : Z) (fuel : nat) :
  0 <= n -> (Z.to_nat n < fuel)%nat ->
  exists run,
    Upload.uploadToPresignedUrl fuel t (Some n) = Some run /\
    Upload.attempts (Upload.result run) = Z.of_nat (Upload.transfers run) /\
    1 <= Z.of_nat (Upload.transfers run) <= n + 1 /\
    S (length (Upload.sleeps run)) = Upload.transfers run.
Proof.
  intros Hn Hfuel.
  destruct (uploadLoop_counts t n (Z.to_nat n) fuel 0 None [])
    as (run & Hrun & Hatt & Hrange & Hsl); [lia..|reflexivity|].
  exists run. split; [exact Hrun|]. split; [exact Hatt|].
  split; [lia|exact Hsl].
Qed.

Lemma upload_result_counts_transfers_witness :
  exists run,
    Upload.uploadToPresignedUrl 3 (always (Upload.NetworkError 0)) (Some 2)
      = Some run /\
    Upload.attempts (Upload.result run) = Z.of_nat (Upload.transfers run).
Proof.
  destruct (upload_result_counts_transfers
              (always (Upload.NetworkError 0)) 2 3)
    as (run & Hrun & Hatt & _); [lia|cbn; lia|].
  exists run. split; [exact Hrun|exact Hatt].
Defined.

(** The loop while the transfers fail in a way that is retried, up to a
    transfer that succeeds. *)
Lemma uploadLoop_success_after_retries (t : Upload.Transport) (n : Z)
    (status : Z) (etag : option string) (k : nat) :
  forall (fuel : nat) (attempt : Z) (lastFailure : option Upload.UploadResult)
         (slept : list Z),
    (k < fuel)%nat ->
    0 <= attempt ->
    attempt + Z.of_nat k <= n ->
    Z.of_nat (length slept) = attempt ->
    (forall i, (i < k)%nat ->
       exists st re m a,
         Upload.uploadOnce (Upload.xhr t (length slept + i))
         = Upload.UploadFail st re true m a) ->
    Upload.uploadOnce (Upload.xhr t (length slept + k))
    = Upload.UploadOk status etag 1 ->
    Upload.uploadLoop fuel t n attempt lastFailure (length slept) slept =
    Some {| Upload.result := Upload.UploadOk status etag (attempt + Z.of_nat k + 1);
            Upload.transfers := S (length slept + k);
            Upload.sleeps := slept ++ expectedSleeps t (length slept) k |}.
Proof.
  induction k as [|k IH];
    intros fuel attempt lastFailure slept Hf Ha Hn Hl Hfail Hok;
    (destruct fuel as [|fuel]; [lia|]); cbn [Upload.uploadLoop];
    (replace (attempt <=? n) with true by (symmetry; apply Z.leb_le; lia)).
  - rewrite Nat.add_0_r in Hok. rewrite Hok. cbn.
    rewrite app_nil_r, Nat.add_0_r. do 3 f_equal. lia.
  - destruct (Hfail 0%nat ltac:(lia)) as (st & re & m & a & Hr).
    rewrite Nat.add_0_r in Hr. rewrite Hr. cbn [Upload.ok negb orb].
    replace (n <? attempt + 1) with false by (symmetry; apply Z.ltb_ge; lia).
    specialize (IH fuel (attempt + 1)
      (Some (Upload.withAttempts (Upload.UploadFail st re true m a)
               (attempt + 1)))
      (slept ++ [Upload.getBackoffMs (Upload.random t (length slept))
                   (attempt + 1)])).
    rewrite length_app in IH. cbn [length] in IH.
    replace (length slept + 1)%nat with (S (length slept)) in IH by lia.
    rewrite IH.
    + rewrite expectedSleeps_S, <- app_assoc. cbn [app].
      rewrite Hl. do 2 f_equal; [f_equal; lia|lia].
    + lia.
    + lia.
    + lia.
    + lia.
    + intros i Hi. replace (S (length slept) + i)%nat
        with (length slept + S i)%nat by lia. apply Hfail. lia.
    + replace (S (length slept) + k)%nat
        with (length slept + S k)%nat by lia. exact Hok.
Qed.

(** X2. When the first [k] transfers fail in a way that is retried (a
    network error, a timeout, a send that throws, or a status 408, 429 or
    5xx) and the next one is answered with a 2xx status, and [k] is
    within [maxRetries], the call returns the ok result of that transfer
    with [attempts = k + 1], after [k + 1] transfers and [k] delays, the
    i-th of which is [getBackoffMs (i + 1)]. *)
Theorem upload_succeeds_after_retriable_failures
    (t : Upload.Transport) (n : Z) (k fuel : nat)
    (status : Z) (etag : option string) :
  Z.of_nat k <= n -> (k < fuel)%nat ->
  (forall i, (i < k)%nat ->
     (exists st, Upload.xhr t i = Upload.NetworkError st) \/
     (exists st, Upload.xhr t i = Upload.TimedOut st) \/
     (exists e, Upload.xhr t i = Upload.SendThrew e) \/
     (exists st e, Upload.xhr t i = Upload.Loaded st e /\
                   (st = 408 \/ st = 429 \/ 500 <= st <= 599))) ->
  Upload.xhr t k = Upload.Loaded status etag ->
  200 <= status < 300 ->
  Upload.uploadToPresignedUrl fuel t (Some n) =
  Some {| Upload.result := Upload.UploadOk status etag (Z.of_nat k + 1);
          Upload.transfers := S k;
          Upload.sleeps := expectedSleeps t 0 k |}.
Proof.
  intros Hk Hfuel Hfail Hload Hst.
  unfold Upload.uploadToPresignedUrl.
  change (Upload.maxRetriesOf (Some n)) with n.
  pose proof (uploadLoop_success_after_retries t n status etag k fuel 0 None []
                Hfuel ltac:(lia) ltac:(lia) eq_refl) as Hrun.
  cbn [length Nat.add app] in Hrun.
  rewrite Hrun; [do 3 f_equal; lia| |].
  - intros i Hi.
    destruct (Hfail i Hi)
      as [[st ->]|[[st ->]|[[e ->]|(st & e & -> & Hs)]]]; cbn.
    + by eexists _, _, _, _.
    + by eexists _, _, _, _.
    + by eexists _, _, _, _.
    + replace ((200 <=? st) && (st <? 300)) with false
        by (symmetry; apply andb_false_iff; lia).
      replace (Upload.isRetriableStatus st) with true.
      * by eexists _, _, _, _.
      * symmetry. unfold Upload.isRetriableStatus.
        apply orb_true_iff. rewrite orb_true_iff, andb_true_iff. lia.
  - rewrite Hload. cbn.
    replace ((200 <=? status) && (status <? 300)) with true; [reflexivity|].
    symmetry. apply andb_true_iff. lia.
Qed.

Lemma upload_succeeds_after_retriable_failures_witness :
  Upload.uploadToPresignedUrl 3
    {| Upload.xhr := fun i => match i with
                               | O => Upload.TimedOut 0
                               | _ => Upload.Loaded 200 (Some "etag-1")
                               end;
       Upload.random := fun _ => (1 # 2)%Q |}
    (Some 3)
  = Some {| Upload.result := Upload.UploadOk 200 (Some "etag-1") 2;
            Upload.transfers := 2;
            Upload.sleeps := [600] |}.
Proof.
  rewrite (upload_succeeds_after_retriable_failures _ 3 1 3 200 (Some "etag-1")).
  - reflexivity.
  - lia.
  - lia.
  - intros i Hi. assert (i = 0%nat) as -> by lia. cbn. right. left. by exists 0.
  - reflexivity.
  - lia.
Defined.

(** X3. A transfer that ends aborted, or that is answered with a status
    that is neither 2xx nor 408, 429 or 5xx, is never followed by another:
    the call returns its non-ok result with [attempts = 1] after that one
    transfer and without sleeping, whatever [maxRetries] is. *)
Theorem upload_not_retried_when_not_retriable
    (t : Upload.Transport) (n : Z) (fuel : nat) :
  0 <= n -> (0 < fuel)%nat ->
  (Upload.xhr t 0 = Upload.SignalAlreadyAborted \/
   (exists st, Upload.xhr t 0 = Upload.Aborted st) \/
   (exists st e, Upload.xhr t 0 = Upload.Loaded st e /\
                 ~ 200 <= st < 300 /\ st <> 408 /\ st <> 429 /\
                 ~ 500 <= st <= 599)) ->
  exists run,
    Upload.uploadToPresignedUrl fuel t (Some n) = Some run /\
    Upload.ok (Upload.result run) = false /\
    Upload.attempts (Upload.result run) = 1 /\
    Upload.transfers run = 1%nat /\
    Upload.sleeps run = [].
Proof.
  intros Hn Hfuel Hfirst.
  destruct fuel as [|fuel]; [lia|].
  unfold Upload.uploadToPresignedUrl.
  change (Upload.maxRetriesOf (Some n)) with n.
  cbn [Upload.uploadLoop].
  replace (0 <=? n) with true by (symmetry; apply Z.leb_le; lia).
  destruct Hfirst as [->|[[st ->]|(st & e & -> & H2 & H408 & H429 & H5)]];
    cbn [Upload.uploadOnce].
  - cbn. eexists. repeat split.
  - cbn. eexists. repeat split.
  - replace ((200 <=? st) && (st <? 300)) with false
      by (symmetry; apply andb_false_iff; lia).
    replace (Upload.isRetriableStatus st) with false.
    + cbn. eexists. repeat split.
    + symmetry. unfold Upload.isRetriableStatus.
      apply orb_false_iff. rewrite orb_false_iff, andb_false_iff. lia.
Qed.

Lemma upload_not_retried_when_not_retriable_witness :
  exists run,
    Upload.uploadToPresignedUrl 4 (always (Upload.Aborted 0)) (Some 3)
      = Some run /\
    Upload.transfers run = 1%nat /\
    Upload.sleeps run = [].
Proof.
  destruct (upload_not_retried_when_not_retriable
              (always (Upload.Aborted 0)) 3 4)
    as (run & Hrun & _ & _ & Ht & Hs); [lia|lia| |].
  - right. left. by exists 0.
  - exists run. auto.
Defined.

(** ** Polling backoff *)

Section PollingProperties.
Import Polling.

Lemma backoffDelayMs_split (rnd : Q) (attempt : Z) :
  (0 <= rnd)%Q -> (rnd < 1)%Q -> 0 <= attempt ->
  exists jitter, 0 <= jitter < 250 /\
    backoffDelayMs rnd attempt = baseDelay attempt + jitter.
Proof.
  intros H0 H1 Ha. exists (Qfloor (rnd * 250)). split.
  - exact (jitter_range rnd 250 H0 H1 ltac:(lia)).
  - unfold backoffDelayMs, baseDelay. by rewrite Z.max_r.
Qed.

Lemma baseDelay_mono (n m : Z) :
  0 <= n <= m -> baseDelay n <= baseDelay m <= 20000.
Proof.
  intros H. unfold baseDelay.
  assert (2 ^ n <= 2 ^ m) by (apply Z.pow_le_mono_r; lia). lia.
Qed.

Lemma baseDelay_gap (n m : Z) :
  0 <= n < m -> baseDelay n < 20000 -> baseDelay n + 250 <= baseDelay m.
Proof.
  intros H Hcap. unfold baseDelay in *.
  assert (n < 4) as Hn.
  { destruct (Z_lt_le_dec n 4) as [|Hge]; [done|].
    assert (2 ^ 4 <= 2 ^ n) by (apply Z.pow_le_mono_r; lia). lia. }
  assert (2 * 2 ^ n <= 2 ^ m).
  { rewrite <- Z.pow_succ_r by lia. apply Z.pow_le_mono_r; lia. }
  assert (n = 0 \/ n = 1 \/ n = 2 \/ n = 3) as [-> | [-> | [-> | ->]]] by lia;
    lia.
Qed.

Lemma fingerprint_truthy (data : option RecordingWithRelations) :
  truthy (fingerprint data) = true.
Proof. unfold fingerprint. by destruct (from_option status "" data). Qed.

Lemma length_append (s t : string) :
  String.length (s +:+ t) = (String.length s + String.length t)%nat.
Proof.
  induction s as [|c s IH]; [reflexivity|].
  change (String c s +:+ t) with (String c (s +:+ t)).
  cbn [String.length]. by rewrite IH.
Qed.

(** Two strings that end in suffixes of one length are equal only when
    the suffixes are and what comes before them is. *)
Lemma append_inj_suffix (s1 s2 t1 t2 : string) :
  String.length t1 = String.length t2 ->
  s1 +:+ t1 = s2 +:+ t2 -> s1 = s2 /\ t1 = t2.
Proof.
  revert s2. induction s1 as [|c s1 IH]; intros [|c2 s2] Hlen H;
    repeat match type of H with
           | context [String ?a ?s +:+ ?t] =>
               change (String a s +:+ t) with (String a (s +:+ t)) in H
           | context [EmptyString +:+ ?t] =>
               change (EmptyString +:+ t) with t in H
           end.
  - done.
  - subst t1. change (String.length (String c2 (s2 +:+ t2)))
      with (S (String.length (s2 +:+ t2))) in Hlen.
    rewrite length_append in Hlen. lia.
  - subst t2. change (String.length (String c (s1 +:+ t1)))
      with (S (String.length (s1 +:+ t1))) in Hlen.
    rewrite length_append in Hlen. lia.
  - injection H as -> H. by destruct (IH s2 Hlen H) as [-> ->].
Qed.

(** The fingerprint tells apart exactly the status and the presence of
    each artifact. *)
Lemma fingerprint_inj (d1 d2 : option RecordingWithRelations) :
  fingerprint d1 = fingerprint d2 <-> sameObservation d1 d2.
Proof.
  unfold fingerprint, sameObservation.
  destruct (d1 ≫= transcript) as [t1|], (d1 ≫= debrief) as [b1|],
           (d2 ≫= transcript) as [t2|], (d2 ≫= debrief) as [b2|];
    repeat first [ rewrite (bool_decide_eq_true_2 (is_Some (Some _)))
                     by (eexists; reflexivity)
                 | rewrite (bool_decide_eq_false_2 (is_Some None))
                     by (intros [? [=]]) ];
    (split;
     [ intros H; apply append_inj_suffix in H as [Hs Hsuffix];
       [|reflexivity]; vm_compute in Hsuffix;
       first [ discriminate Hsuffix
             | split; [exact Hs|]; split; split; intros ?;
               first [ eexists; reflexivity | assumption ] ]
     | intros (-> & Ht & Hb);
       first [ reflexivity
             | exfalso;
               first [ by destruct (proj1 Ht ltac:(eexists; reflexivity))
                     | by destruct (proj2 Ht ltac:(eexists; reflexivity))
                     | by destruct (proj1 Hb ltac:(eexists; reflexivity))
                     | by destruct (proj2 Hb ltac:(eexists; reflexivity)) ] ] ]).
Qed.

Lemma onData_same_key (rnd : Q) (data : option RecordingWithRelations)
    (r : Refs) :
  fingerprint data = lastKeyRef r ->
  isTerminalRecordingState data = false ->
  onData rnd data r =
  ({| attemptRef := attemptRef r;
      timeoutRef := Some (backoffDelayMs rnd (attemptRef r));
      lastKeyRef := lastKeyRef r |},
   Some (backoffDelayMs rnd (attemptRef r))).
Proof.
  intros Hkey Hterm. unfold onData.
  rewrite Hkey, String.eqb_refl, andb_false_r, Hterm. reflexivity.
Qed.

Lemma onData_new_key (rnd : Q) (data : option RecordingWithRelations)
    (r : Refs) :
  fingerprint data <> lastKeyRef r ->
  attemptRef (onData rnd data r).1 = 0 /\
  lastKeyRef (onData rnd data r).1 = fingerprint data /\
  (isTerminalRecordingState data = false ->
   (onData rnd data r).2 = Some (backoffDelayMs rnd 0)).
Proof.
  intros Hkey. unfold onData.
  rewrite fingerprint_truthy.
  apply String.eqb_neq in Hkey. rewrite Hkey. cbn [andb negb].
  destruct (isTerminalRecordingState data); cbn; repeat split; congruence.
Qed.

(** The delays of a run in which every fetch shows the fingerprint seen
    last and no terminal state. *)
Lemma pollRun_same_key (random : nat -> Q)
    (observed : list (option RecordingWithRelations)) :
  forall (k : nat) (r : Refs),
    (forall data, data ∈ observed ->
       fingerprint data = lastKeyRef r /\
       isTerminalRecordingState data = false) ->
    pollRun random k r observed =
    (fun i => backoffDelayMs (random (k + i)%nat) (attemptRef r + Z.of_nat i))
      <$> seq 0 (length observed).
Proof.
  induction observed as [|data rest IH]; intros k r Hobs; [reflexivity|].
  destruct (Hobs data ltac:(left)) as [Hkey Hterm].
  cbn [pollRun]. rewrite onData_same_key by done.
  cbn [length seq fmap list_fmap]. f_equal.
  - f_equal; [f_equal; lia | lia].
  - rewrite IH.
    + rewrite <- fmap_S_seq, <- list_fmap_compose. apply list_fmap_ext.
      intros _ i _. cbn. f_equal; [f_equal; lia | lia].
    + intros d Hd. cbn. apply Hobs. by right.
Qed.

Lemma onData_timer (rnd : Q) (data : option RecordingWithRelations)
    (r : Refs) :
  (onData rnd data r).2 = None <-> isTerminalRecordingState data = true.
Proof.
  unfold onData. destruct (isTerminalRecordingState data); cbn; split;
    congruence.
Qed.

Lemma pollRun_stops_at_terminal (random : nat -> Q)
    (pre : list (option RecordingWithRelations)) :
  forall (k : nat) (r : Refs) (data : option RecordingWithRelations)
         (rest : list (option RecordingWithRelations)),
    isTerminalRecordingState data = true ->
    (length (pollRun random k r (pre ++ data :: rest)) <= length pre)%nat.
Proof.
  induction pre as [|x pre IH]; intros k r data rest Hterm; cbn [app pollRun].
  - destruct (onData (random k) data r) as [r' [delay|]] eqn:Hd; [|cbn; lia].
    pose proof (proj2 (onData_timer (random k) data r) Hterm) as Hnone.
    rewrite Hd in Hnone. discriminate Hnone.
  - destruct (onData (random k) x r) as [r' [delay|]]; cbn [length]; [|lia].
    specialize (IH (S k) (onTimer r') data rest Hterm). lia.
Qed.

End PollingProperties.

(** C9. The delay scheduled for attempt [n] is [min (1500 * 2^n) 20000]
    plus a jitter below 250. Over a run of polls that all show the
    fingerprint seen last (and no terminal state) a delay is scheduled
    after every poll, the i-th for attempt [attemptRef + i]; their
    deterministic parts never decrease and never exceed the cap, and a
    delay scheduled before the cap is reached is smaller than every later
    one. Two fetches have the same fingerprint exactly when they show the
    same status, the same presence of a transcript and the same presence
    of a debrief. So when a poll differs in one of the three from the
    fetch whose fingerprint was remembered (and, more generally, whenever
    its fingerprint is not the one remembered), the attempt count is set
    to zero and the new fingerprint is remembered, and the delay scheduled
    next (if the state is not terminal) is the base 1500 plus jitter. *)
Theorem backoff_schedule_grows_to_cap_and_resets_on_change
    (random : nat -> Q) :
  (forall k, (0 <= random k)%Q /\ (random k < 1)%Q) ->
  (forall (k : nat) (attempt : Z), 0 <= attempt ->
     exists jitter, 0 <= jitter < 250 /\
       Polling.backoffDelayMs (random k) attempt
       = Z.min (1500 * 2 ^ attempt) 20000 + jitter)
  /\
  (forall (k : nat) (r : Polling.Refs)
          (observed : list (option Polling.RecordingWithRelations)),
     0 <= Polling.attemptRef r ->
     (forall data, data ∈ observed ->
        Polling.fingerprint data = Polling.lastKeyRef r /\
        Polling.isTerminalRecordingState data = false) ->
     let delays := Polling.pollRun random k r observed in
     length delays = length observed /\
     (forall (i : nat) (d : Z), delays !! i = Some d ->
        exists jitter, 0 <= jitter < 250 /\
          d = Polling.baseDelay (Polling.attemptRef r + Z.of_nat i) + jitter) /\
     (forall i j : nat, (i <= j)%nat ->
        Polling.baseDelay (Polling.attemptRef r + Z.of_nat i)
        <= Polling.baseDelay (Polling.attemptRef r + Z.of_nat j) <= 20000) /\
     (forall (i j : nat) (di dj : Z), (i < j)%nat ->
        delays !! i = Some di -> delays !! j = Some dj ->
        Polling.baseDelay (Polling.attemptRef r + Z.of_nat i) < 20000 ->
        di < dj))
  /\
  (forall d1 d2 : option Polling.RecordingWithRelations,
     Polling.fingerprint d1 = Polling.fingerprint d2 <-> sameObservation d1 d2)
  /\
  (forall (k : nat) (r : Polling.Refs)
          (prev data : option Polling.RecordingWithRelations),
     Polling.lastKeyRef r = Polling.fingerprint prev ->
     ~ sameObservation data prev ->
     Polling.attemptRef (Polling.onData (random k) data r).1 = 0 /\
     Polling.lastKeyRef (Polling.onData (random k) data r).1
       = Polling.fingerprint data /\
     (Polling.isTerminalRecordingState data = false ->
      exists jitter, 0 <= jitter < 250 /\
        (Polling.onData (random k) data r).2 = Some (1500 + jitter)))
  /\
  (forall (k : nat) (r : Polling.Refs)
          (data : option Polling.RecordingWithRelations),
     Polling.fingerprint data <> Polling.lastKeyRef r ->
     Polling.attemptRef (Polling.onData (random k) data r).1 = 0 /\
     Polling.lastKeyRef (Polling.onData (random k) data r).1
       = Polling.fingerprint data /\
     (Polling.isTerminalRecordingState data = false ->
      exists jitter, 0 <= jitter < 250 /\
        (Polling.onData (random k) data r).2 = Some (1500 + jitter))).
Proof.
  intros Hrnd.
  assert (forall (k : nat) (attempt : Z), 0 <= attempt ->
            exists jitter, 0 <= jitter < 250 /\
              Polling.backoffDelayMs (random k) attempt
              = Polling.baseDelay attempt + jitter) as Hsplit.
  { intros k attempt Ha. apply backoffDelayMs_split; [apply Hrnd..|exact Ha]. }
  assert (forall (k : nat) (r : Polling.Refs)
                 (data : option Polling.RecordingWithRelations),
            Polling.fingerprint data <> Polling.lastKeyRef r ->
            Polling.attemptRef (Polling.onData (random k) data r).1 = 0 /\
            Polling.lastKeyRef (Polling.onData (random k) data r).1
              = Polling.fingerprint data /\
            (Polling.isTerminalRecordingState data = false ->
             exists jitter, 0 <= jitter < 250 /\
               (Polling.onData (random k) data r).2 = Some (1500 + jitter)))
    as Hreset.
  { intros k r data Hkey.
    destruct (onData_new_key (random k) data r Hkey) as (H0 & Hk & Hd).
    split; [exact H0|]. split; [exact Hk|].
    intros Hterm. rewrite (Hd Hterm).
    destruct (Hsplit k 0 ltac:(lia)) as (jitter & Hj & ->).
    exists jitter. split; [exact Hj|]. reflexivity. }
  split; [exact Hsplit|]. split; [|split; [exact fingerprint_inj|split]].
  - intros k r observed Ha Hobs delays. subst delays.
    rewrite (pollRun_same_key random observed k r Hobs).
    assert (forall (i : nat) (d : Z),
      ((fun i0 : nat => Polling.backoffDelayMs (random (k + i0)%nat)
                          (Polling.attemptRef r + Z.of_nat i0))
         <$> seq 0 (length observed)) !! i = Some d ->
      exists jitter, 0 <= jitter < 250 /\
        d = Polling.baseDelay (Polling.attemptRef r + Z.of_nat i) + jitter)
      as Hith.
    { intros i d. rewrite list_lookup_fmap.
      destruct (seq 0 (length observed) !! i) as [i'|] eqn:Hi; [|discriminate].
      apply lookup_seq in Hi as [-> _]. cbn. intros [= <-].
      apply Hsplit. lia. }
    split; [by rewrite length_fmap, length_seq|].
    split; [exact Hith|]. split.
    + intros i j Hij. apply baseDelay_mono. lia.
    + intros i j di dj Hij Hi Hj Hcap.
      apply Hith in Hi as (ji & Hji & ->). apply Hith in Hj as (jj & Hjj & ->).
      pose proof (baseDelay_gap (Polling.attemptRef r + Z.of_nat i)
                    (Polling.attemptRef r + Z.of_nat j) ltac:(lia) Hcap).
      lia.
  - intros k r prev data Hlast Hdiff. apply Hreset.
    rewrite Hlast. intros Heq. by apply Hdiff, fingerprint_inj.
  - exact Hreset.
Qed.

Lemma backoff_schedule_grows_to_cap_and_resets_on_change_witness :
  length (Polling.pollRun (fun _ => (1 # 2)%Q) 0 seenProcessing
            [stillProcessing; stillProcessing; stillProcessing]) = 3%nat /\
  Polling.attemptRef polledThrice = 3 /\
  Polling.attemptRef
    (Polling.onData (1 # 2)%Q transcribed polledThrice).1 = 0.
Proof.
  destruct (backoff_schedule_grows_to_cap_and_resets_on_change
              (fun _ => (1 # 2)%Q)) as (_ & Hsame & _ & Hchange & _).
  - intros k. split; [discriminate|reflexivity].
  - split; [|split; [reflexivity|]].
    + destruct (Hsame 0%nat seenProcessing
                  [stillProcessing; stillProcessing; stillProcessing])
        as [Hlen _].
      * cbn. lia.
      * intros data Hd.
        assert (data = stillProcessing) as ->.
        { repeat (apply elem_of_cons in Hd as [Hd|Hd]; [exact Hd|]).
          by apply elem_of_nil in Hd. }
        split; reflexivity.
      * exact Hlen.
    + destruct (Hchange 0%nat polledThrice stillProcessing transcribed)
        as [Hzero _].
      * reflexivity.
      * intros (_ & Ht & _). cbn in Ht.
        by destruct (proj1 Ht ltac:(eexists; reflexivity)).
      * exact Hzero.
Defined.

(** X4. The backoff hook sets a timer after a fetch exactly when the
    state fetched is not terminal, and the state is terminal exactly when
    the status is [failed], or [complete] with a debrief there; a
    [complete] Recording without debrief keeps being polled. The plain
    polling hook stops on the same states. A run of polls never goes past
    the first terminal state it fetches. *)
Theorem polling_stops_exactly_at_terminal_states :
  (forall rnd data r,
     (Polling.onData rnd data r).2 = None <->
     Polling.isTerminalRecordingState data = true) /\
  (forall data,
     Polling.isTerminalRecordingState data = true <->
     exists d, data = Some d /\
       (Polling.status d = "failed" \/
        (Polling.status d = "complete" /\ is_Some (Polling.debrief d)))) /\
  (forall data,
     Polling.refetchInterval data = None <->
     Polling.isTerminalRecordingState data = true) /\
  (forall random k r pre data rest,
     Polling.isTerminalRecordingState data = true ->
     (length (Polling.pollRun random k r (pre ++ data :: rest))
      <= length pre)%nat).
Proof.
  split; [exact onData_timer|]. split; [|split].
  - intros [d|]; cbn; [|split; [discriminate|by intros (d & [=] & _)]].
    destruct (String.eqb_spec (Polling.status d) "failed") as [Hf|Hf].
    + split; [|done]. intros _. exists d. auto.
    + destruct (String.eqb_spec (Polling.status d) "complete") as [Hc|Hc];
        cbn [andb].
      * rewrite bool_decide_eq_true. split.
        -- intros Hd. exists d. auto.
        -- intros (d' & [= <-] & [?|[_ Hd]]); [done|exact Hd].
      * split; [discriminate|].
        intros (d' & [= <-] & [?|[? _]]); done.
  - intros [d|]; unfold Polling.refetchInterval; cbn; [|done].
    destruct (String.eqb (Polling.status d) "failed"); [done|].
    destruct (String.eqb (Polling.status d) "complete"); cbn [andb]; [|done].
    by destruct (bool_decide (is_Some (Polling.debrief d))).
  - intros random k r pre data rest. apply pollRun_stops_at_terminal.
Qed.

(** X5. When the page moves to another recording the hook forgets the
    attempts it counted and the fingerprint it remembered: whatever the
    refs were, the first fetch after that is followed, unless its state is
    terminal, by the base delay of 1500 plus jitter, and its fingerprint
    is the one remembered. *)
Theorem recording_id_change_restarts_backoff
    (rnd : Q) (r : Polling.Refs)
    (data : option Polling.RecordingWithRelations) :
  (0 <= rnd)%Q -> (rnd < 1)%Q ->
  let r0 := Polling.onRecordingIdChange r in
  Polling.attemptRef r0 = 0 /\
  Polling.timeoutRef r0 = None /\
  Polling.attemptRef (Polling.onData rnd data r0).1 = 0 /\
  Polling.lastKeyRef (Polling.onData rnd data r0).1 = Polling.fingerprint data /\
  (Polling.isTerminalRecordingState data = false ->
   exists jitter, 0 <= jitter < 250 /\
     (Polling.onData rnd data r0).2 = Some (1500 + jitter)).
Proof.
  intros H0 H1 r0. split; [reflexivity|]. split; [reflexivity|].
  assert (Polling.fingerprint data <> Polling.lastKeyRef r0) as Hkey.
  { cbn. intros Heq. pose proof (fingerprint_truthy data) as Ht.
    by rewrite Heq in Ht. }
  destruct (onData_new_key rnd data r0 Hkey) as (Ha & Hk & Hd).
  split; [exact Ha|]. split; [exact Hk|].
  intros Hterm. rewrite (Hd Hterm).
  destruct (backoffDelayMs_split rnd 0 H0 H1 ltac:(lia)) as (jitter & Hj & ->).
  exists jitter. split; [exact Hj|reflexivity].
Qed.

Lemma recording_id_change_restarts_backoff_witness :
  Polling.attemptRef
    (Polling.onData (1 # 2)%Q stillProcessing
       (Polling.onRecordingIdChange polledThrice)).1 = 0 /\
  (Polling.onData (1 # 2)%Q stillProcessing
     (Polling.onRecordingIdChange polledThrice)).2 = Some 1625.
Proof.
  destruct (recording_id_change_restarts_backoff (1 # 2)%Q polledThrice
              stillProcessing) as (_ & _ & Ha & _ & _).
  - discriminate.
  - reflexivity.
  - split; [exact Ha|reflexivity].
Defined.

(** ** The pipeline *)

(** Symbolic execution of an operation: [reduce_in H] unfolds the
    operations in [H : w' = world (op w)], and [step H] takes the case of
    the test the execution is stopped at. *)

Ltac reduce_in H :=
  cbv beta iota zeta delta
    [Pipeline.debriefProcessor Pipeline.debriefTry
     Pipeline.transcriptionProcessor Pipeline.transcriptionTry
     Pipeline.transcriptionSteps1to5 Pipeline.transcriptionStep6
     Pipeline.persistTranscript Pipeline.onWorkerError
     Pipeline.updateJobStatus
     Pipeline.retryDebriefJob Pipeline.retryTranscriptionJob
     Pipeline.completeUploadRoute Pipeline.retryDebriefRoute
     Pipeline.retryTranscriptionRoute
     Pipeline.reply Pipeline.unauthorized Pipeline.notFound
     Pipeline.getRecordingByUser Pipeline.completeUpload Pipeline.createJob
     Pipeline.updateRecordingStatus Pipeline.createRecording
     Pipeline.setRecordingObjectKey Pipeline.saveTranscript
     Pipeline.bind Pipeline.tryCatch Pipeline.ret Pipeline.throw
     Pipeline.await Pipeline.awaitUnit
     Pipeline.db_job_update Pipeline.db_job_create
     Pipeline.db_recording_update Pipeline.db_recording_updateMany
     Pipeline.db_recording_findUnique Pipeline.db_recording_findFirst
     Pipeline.db_recording_create
     Pipeline.db_debrief_upsert Pipeline.db_transcript_upsert
     Pipeline.debriefQueue_add Pipeline.transcriptionQueue_add
     Pipeline.enqueueDebriefJob Pipeline.enqueueTranscriptionJob
     Pipeline.withDb Pipeline.setJobs Pipeline.setRecordings
     Pipeline.setTranscripts Pipeline.setDebriefs
     Pipeline.logEvent Pipeline.logStatus Pipeline.statusData] in H;
  cbn [Pipeline.db Pipeline.jobs Pipeline.recordings Pipeline.transcripts
       Pipeline.debriefs Pipeline.transcriptionQueue Pipeline.debriefQueue
       Pipeline.trace Pipeline.dataStatus Pipeline.recording
       Pipeline.transcript Pipeline.debrief
       fst snd Pipeline.world negb] in H.

Ltac head_scrutinee t :=
  lazymatch t with
  | match ?x with _ => _ end => head_scrutinee x
  | (match ?x with _ => _ end) _ => head_scrutinee x
  | _ => t
  end.

Ltac lookups_in H :=
  repeat first
    [ rewrite (lookup_insert_eq (M := gmap string)) in H
    | rewrite list_lookup_insert_eq in H
        by (eapply lookup_lt_Some; eassumption) ].

Ltac normalize_in H :=
  reduce_in H; repeat (progress lookups_in H; reduce_in H).

Ltac step_term H t :=
  lazymatch t with
  | match ?x with _ => _ end =>
      let s := head_scrutinee x in destruct s eqn:?; normalize_in H
  | (match ?x with _ => _ end) _ =>
      let s := head_scrutinee x in destruct s eqn:?; normalize_in H
  end.

Ltac step H :=
  lazymatch type of H with
  | _ = Pipeline.world ?t => step_term H t
  | _ = ?t => step_term H t
  end.

(** [execute_as w' H]: all the ways the operation in the goal can run,
    each with the world it ends in. [execute_in H] does the same for an
    outcome [H : o = op w]. *)
Ltac execute_as w' H :=
  match goal with
  | |- context [Pipeline.world ?o] =>
      remember (Pipeline.world o) as w' eqn:H;
      normalize_in H; repeat step H; subst w'
  end.

Ltac execute_in H :=
  normalize_in H; repeat step H;
  try discriminate H;
  try (injection H as H; repeat match goal with
                                | E : _ = _ |- _ => progress subst
                                end).

Section PipelineProperties.
Import Pipeline.

(** *** Upserts *)

Lemma forRecording_true (rid : string) (t : Transcript) :
  forRecording rid t = true <-> transcriptRecordingId t = rid.
Proof. apply String.eqb_eq. Qed.

Lemma forRecording_false (rid : string) (t : Transcript) :
  forRecording rid t = false <-> transcriptRecordingId t <> rid.
Proof. apply String.eqb_neq. Qed.

Lemma filter_none {A} (P : A -> Prop) `{forall x, Decision (P x)}
    (l : list A) :
  (forall x, x ∈ l -> ~ P x) -> filter P l = [].
Proof.
  induction l as [|a l IH]; intros Hl; [done|].
  rewrite filter_cons, decide_False by (apply Hl; left).
  apply IH. intros x Hx. apply Hl. by right.
Qed.

Lemma upsertRow_transcripts (rid : string) (upd : Transcript -> Transcript)
    (create : Transcript) (rows : list Transcript) :
  (forall t, transcriptRecordingId (upd t) = transcriptRecordingId t) ->
  transcriptRecordingId create = rid ->
  NoDup (transcriptRecordingId <$> rows) ->
  forall row rows',
    upsertRow (forRecording rid) upd create rows = (row, rows') ->
    filter (fun t => transcriptRecordingId t = rid) rows' = [row] /\
    NoDup (transcriptRecordingId <$> rows') /\
    (forall k, (k ∈ (transcriptRecordingId <$> rows')) <->
               (k = rid \/ k ∈ (transcriptRecordingId <$> rows))) /\
    ((exists old, old ∈ rows /\ transcriptRecordingId old = rid /\ row = upd old)
     \/ ((rid ∉ (transcriptRecordingId <$> rows)) /\ row = create)).
Proof.
  intros Hupd Hcreate. induction rows as [|x rest IH]; intros Hnd row rows' Hup.
  - cbn in Hup. injection Hup as <- <-.
    split; [|split; [|split]].
    + rewrite filter_cons, decide_True by done. reflexivity.
    + apply NoDup_singleton.
    + intros k. cbn. rewrite Hcreate. set_solver.
    + right. split; [apply not_elem_of_nil|done].
  - cbn in Hup. rewrite fmap_cons in Hnd. apply NoDup_cons in Hnd as [Hx Hnd].
    destruct (forRecording rid x) eqn:Hm.
    + injection Hup as <- <-. apply forRecording_true in Hm.
      assert (filter (fun t => transcriptRecordingId t = rid) rest = []) as Hnone.
      { apply filter_none. intros t Ht Heq.
        apply Hx. rewrite Hm, <- Heq. apply list_elem_of_fmap. eauto. }
      split; [|split; [|split]].
      * rewrite filter_cons, decide_True by (by rewrite Hupd). by rewrite Hnone.
      * rewrite fmap_cons, Hupd. by apply NoDup_cons.
      * intros k. rewrite !fmap_cons, Hupd, Hm. set_solver.
      * left. exists x. split; [left|done].
    + destruct (upsertRow (forRecording rid) upd create rest) as [row0 rest'] eqn:Hrec.
      injection Hup as <- <-. apply forRecording_false in Hm.
      destruct (IH Hnd row0 rest' eq_refl) as (Hf & Hnd' & Hdom & Hrow).
      split; [|split; [|split]].
      * rewrite filter_cons, decide_False by done. exact Hf.
      * rewrite fmap_cons. apply NoDup_cons. split; [|exact Hnd'].
        intros Hin. apply Hdom in Hin as [?|?]; [congruence|done].
      * intros k. rewrite !fmap_cons, !elem_of_cons, Hdom. tauto.
      * destruct Hrow as [(old & Ho & Hk & ->)|[Hnot ->]].
        -- left. exists old. split; [by right|done].
        -- right. split; [|done]. rewrite fmap_cons.
           intros Hin. apply elem_of_cons in Hin as [?|?]; [congruence|done].
Qed.

(** What an upsert does to "has a row for": the recording written has
    one, and no recording loses one. *)
Lemma upsertRow_find {A} (key : A -> string) (rid : string)
    (upd : A -> A) (create : A) (rows : list A) :
  (forall x, key (upd x) = key x) ->
  key create = rid ->
  forall row rows',
    upsertRow (fun x => String.eqb (key x) rid) upd create rows = (row, rows') ->
    find (fun x => String.eqb (key x) rid) rows' = Some row /\
    (forall rid',
       is_Some (find (fun x => String.eqb (key x) rid') rows) ->
       is_Some (find (fun x => String.eqb (key x) rid') rows')).
Proof.
  intros Hupd Hcreate. induction rows as [|x rest IH]; intros row rows' Hup.
  - cbn in Hup. injection Hup as <- <-. cbn.
    rewrite Hcreate, String.eqb_refl. split; [done|].
    intros rid' [? [=]].
  - cbn in Hup. destruct (String.eqb (key x) rid) eqn:Hm.
    + injection Hup as <- <-. cbn. rewrite Hupd, Hm. split; [done|].
      intros rid'. destruct (String.eqb (key x) rid'); [eauto|done].
    + destruct (upsertRow _ upd create rest) as [row0 rest'] eqn:Hrec.
      injection Hup as <- <-. destruct (IH row0 rest' eq_refl) as [Hf Hmono].
      cbn. rewrite Hm. split; [exact Hf|].
      intros rid'. destruct (String.eqb (key x) rid'); [eauto|apply Hmono].
Qed.

(** The row an upsert returns: the first match updated, or the row to
    create when nothing matches. *)
Lemma upsertRow_row {A} (matches : A -> bool) (upd : A -> A) (create : A)
    (rows : list A) :
  (upsertRow matches upd create rows).1 =
  match find matches rows with
  | Some old => upd old
  | None => create
  end.
Proof.
  induction rows as [|x rest IH]; cbn; [reflexivity|].
  destruct (matches x); [reflexivity|].
  destruct (upsertRow matches upd create rest) as [row rest']. exact IH.
Qed.

Lemma db_transcript_upsert_spec (w : World) (rid newText : string)
    (newSegments : option (list TranscriptSegment)) (newLanguage : string) :
  uniqueTranscripts (db w) ->
  exists t rows',
    db_transcript_upsert rid newText newSegments newLanguage w
      = Ok t (withDb w (setTranscripts (db w) rows')) /\
    filter (fun t => transcriptRecordingId t = rid) rows' = [t] /\
    NoDup (transcriptRecordingId <$> rows') /\
    find (forRecording rid) rows' = Some t /\
    text t = newText /\
    segments t = orKeep newSegments (transcriptOf rid (db w) ≫= segments) /\
    language t = newLanguage.
Proof.
  intros Hu. unfold db_transcript_upsert.
  destruct (upsertRow _ _ _ (transcripts (db w))) as [row rows'] eqn:Hup.
  exists row, rows'. split; [reflexivity|].
  pose proof (f_equal fst Hup) as Hrow. rewrite upsertRow_row in Hrow.
  pose proof Hup as Hfind.
  apply (upsertRow_find transcriptRecordingId) in Hfind as [Hfind _];
    [|reflexivity..].
  apply upsertRow_transcripts in Hup as (Hf & Hnd & _ & _); [|done..].
  split; [exact Hf|]. split; [exact Hnd|]. split; [exact Hfind|].
  unfold transcriptOf. cbn [fst] in Hrow. subst row.
  by destruct (find (forRecording rid) (transcripts (db w))), newSegments.
Qed.

(** Two upserts for one recording: one row is left; its text and
    language are the later ones; its segments are the later ones when
    there are any, and otherwise those the earlier upsert left. *)
Lemma transcript_upserted_twice (w : World) (rid text1 text2 : string)
    (segs1 segs2 : option (list TranscriptSegment)) (lang1 lang2 : string) :
  uniqueTranscripts (db w) ->
  exists t1 w1 t2 w2,
    db_transcript_upsert rid text1 segs1 lang1 w = Ok t1 w1 /\
    db_transcript_upsert rid text2 segs2 lang2 w1 = Ok t2 w2 /\
    filter (fun t => transcriptRecordingId t = rid) (transcripts (db w2)) = [t2] /\
    text t2 = text2 /\
    language t2 = lang2 /\
    segments t2 = orKeep segs2 (segments t1) /\
    segments t1 = orKeep segs1 (transcriptOf rid (db w) ≫= segments).
Proof.
  intros Hu.
  destruct (db_transcript_upsert_spec w rid text1 segs1 lang1 Hu)
    as (t1 & rows1 & Hr1 & _ & Hnd1 & Hfind1 & _ & Hs1 & _).
  destruct (db_transcript_upsert_spec
              (withDb w (setTranscripts (db w) rows1)) rid text2 segs2 lang2
              Hnd1)
    as (t2 & rows2 & Hr2 & Hf2 & _ & _ & Ht2 & Hs2 & Hl2).
  eexists t1, _, t2, _. split; [exact Hr1|]. split; [exact Hr2|].
  split; [exact Hf2|]. split; [exact Ht2|]. split; [exact Hl2|].
  split; [|exact Hs1].
  rewrite Hs2. unfold transcriptOf. cbn [withDb db setTranscripts transcripts].
  by rewrite Hfind1.
Qed.

(** The same for the persistence step of the transcription worker: a
    later output with segments replaces the row's segments, a later output
    without segments leaves those of the earlier output in the row. *)
Lemma persistTranscript_twice (w : World) (rid : string)
    (first second : ProviderTranscription) :
  uniqueTranscripts (db w) ->
  exists t1 w1 t2 w2,
    persistTranscript rid first w = Ok t1 w1 /\
    persistTranscript rid second w1 = Ok t2 w2 /\
    filter (fun t => transcriptRecordingId t = rid) (transcripts (db w2)) = [t2] /\
    text t2 = pText second /\
    language t2 = pLanguage second /\
    segments t2 = orKeep (pSegments second) (segments t1) /\
    (forall s, pSegments first = Some s -> segments t1 = Some s).
Proof.
  intros Hu. unfold persistTranscript.
  destruct (transcript_upserted_twice w rid (pText first) (pText second)
              (pSegments first) (pSegments second)
              (pLanguage first) (pLanguage second) Hu)
    as (t1 & w1 & t2 & w2 & H1 & H2 & Hf & Ht & Hl & Hs2 & Hs1).
  exists t1, w1, t2, w2. repeat (split; [assumption|]).
  intros s Hs. by rewrite Hs1, Hs.
Qed.

(** [saveTranscript] leaves the Transcript table as its upsert leaves
    it, and does not throw. *)
Lemma saveTranscript_transcripts (w : World) (rid newText : string)
    (newSegments : option (list TranscriptSegment)) (newLanguage : string) :
  exists w',
    saveTranscript rid newText newSegments newLanguage w = Ok tt w' /\
    transcripts (db w')
    = transcripts (db (world (db_transcript_upsert rid newText newSegments
                                newLanguage w))).
Proof.
  unfold saveTranscript, bind, db_transcript_upsert.
  destruct (upsertRow _ _ _ (transcripts (db w))) as [row rows'].
  unfold db_recording_updateMany, ret.
  cbn [withDb db setTranscripts recordings world].
  destruct (recordings (db w) !! rid) as [r|]; [destruct (decide _)|];
    eexists; (split; [reflexivity|]); reflexivity.
Qed.

Lemma saveTranscript_twice (w : World) (rid text1 text2 : string)
    (segs1 segs2 : option (list TranscriptSegment)) (lang1 lang2 : string) :
  uniqueTranscripts (db w) ->
  exists w1 w2 t1 t2,
    saveTranscript rid text1 segs1 lang1 w = Ok tt w1 /\
    saveTranscript rid text2 segs2 lang2 w1 = Ok tt w2 /\
    find (forRecording rid) (transcripts (db w1)) = Some t1 /\
    filter (fun t => transcriptRecordingId t = rid) (transcripts (db w2)) = [t2] /\
    text t2 = text2 /\
    language t2 = lang2 /\
    segments t2 = orKeep segs2 (segments t1) /\
    (forall s, segs1 = Some s -> segments t1 = Some s).
Proof.
  intros Hu.
  destruct (saveTranscript_transcripts w rid text1 segs1 lang1)
    as (w1 & Hr1 & Ht1).
  destruct (db_transcript_upsert_spec w rid text1 segs1 lang1 Hu)
    as (t1 & rows1 & Hu1 & _ & Hnd1 & Hfind1 & _ & Hs1 & _).
  rewrite Hu1 in Ht1. cbn [world withDb db setTranscripts transcripts] in Ht1.
  destruct (saveTranscript_transcripts w1 rid text2 segs2 lang2)
    as (w2 & Hr2 & Ht2).
  destruct (db_transcript_upsert_spec w1 rid text2 segs2 lang2)
    as (t2 & rows2 & Hu2 & Hf2 & _ & _ & Htext & Hs2 & Hl2).
  { unfold uniqueTranscripts. by rewrite Ht1. }
  rewrite Hu2 in Ht2. cbn [world withDb db setTranscripts transcripts] in Ht2.
  exists w1, w2, t1, t2. split; [exact Hr1|]. split; [exact Hr2|].
  split; [by rewrite Ht1|]. split; [by rewrite Ht2|].
  split; [exact Htext|]. split; [exact Hl2|]. split.
  - rewrite Hs2. unfold transcriptOf. by rewrite Ht1, Hfind1.
  - intros s ->. by rewrite Hs1.
Qed.

(** *** The complete-upload route rejects without writing *)

(** C8. For an identified caller, a well-formed body and a Recording of
    that caller: when the Recording is not [pending], or when it is
    [pending] with an object key for which [objectExists] answers false,
    the route replies 400 and leaves the world as it was (no row, queue
    or event changes); in the second case the Recording is therefore
    still [pending]. *)
Theorem complete_upload_rejected_leaves_recording_untouched
    (env : Env) (req : Request) (w : World) (uid : string)
    (size : option Z) (r : Recording) :
  headerUserId req = Some uid ->
  parsedBody req = inr size ->
  recordings (db w) !! paramId req = Some r ->
  userId r = uid ->
  (status r <> pending ->
   exists msg,
     completeUploadRoute env req w
     = Ok {| code := 400; payload := ErrorPayload "Invalid State" msg |} w)
  /\
  (forall key,
     status r = pending ->
     objectKey r = Some key -> truthy key = true ->
     objectExists env key = inr false ->
     exists msg,
       completeUploadRoute env req w
       = Ok {| code := 400; payload := ErrorPayload "Upload Not Found" msg |} w
       /\ statusOf (paramId req)
            (world (completeUploadRoute env req w)) = Some pending).
Proof.
  intros Hu Hb Hr Huid.
  assert (getRecordingByUser (paramId req) uid false w
          = Ok (Some {| recording := r; transcript := None; debrief := None |}) w)
    as Hget.
  { unfold getRecordingByUser, db_recording_findFirst.
    rewrite Hr, Huid, String.eqb_refl. reflexivity. }
  split.
  - intros Hst. eexists.
    unfold completeUploadRoute. rewrite Hu, Hb.
    unfold tryCatch, bind. rewrite Hget. cbn [recording].
    rewrite bool_decide_eq_false_2 by exact Hst. reflexivity.
  - intros key Hst Hkey Htr Hex.
    assert (completeUploadRoute env req w
            = Ok {| code := 400;
                    payload := ErrorPayload "Upload Not Found"
                      "File not found in storage. Please upload the file first." |} w)
      as Hrun.
    { unfold completeUploadRoute. rewrite Hu, Hb.
      unfold tryCatch, bind. rewrite Hget. cbn [recording].
      rewrite bool_decide_eq_true_2 by exact Hst. cbn [negb].
      rewrite Hkey, Htr, Hex. reflexivity. }
    eexists. split; [exact Hrun|].
    rewrite Hrun. unfold statusOf. cbn [world]. by rewrite Hr, <- Hst.
Qed.

Lemma complete_upload_rejected_leaves_recording_untouched_witness :
  exists msg,
    completeUploadRoute Demo.envNoObject Demo.request Demo.wPending
    = Ok {| code := 400; payload := ErrorPayload "Upload Not Found" msg |}
         Demo.wPending /\
    statusOf "r1"
      (world (completeUploadRoute Demo.envNoObject Demo.request Demo.wPending))
    = Some pending.
Proof.
  edestruct (complete_upload_rejected_leaves_recording_untouched
               Demo.envNoObject Demo.request Demo.wPending "u1"
               (Some 2097152)) as [_ H].
  - reflexivity.
  - reflexivity.
  - vm_compute. reflexivity.
  - reflexivity.
  - apply (H "u1/r1.webm"); reflexivity.
Defined.

(** *** What each operation can do to a Recording status *)

Ltac split_lookup :=
  match goal with
  | |- context [<[?k := _]> _ !! ?rid] =>
      let Heq := fresh "Heq" in
      destruct (decide (k = rid)) as [Heq|];
      [ rewrite ?Heq in *; rewrite (lookup_insert_eq (M := gmap string))
      | rewrite (lookup_insert_ne (M := gmap string)) by done ]
  end.

(** Facts the tests of an execution leave behind, in usable form. *)
Ltac tidy :=
  repeat match goal with
  | H : negb (bool_decide _) = false |- _ =>
      apply negb_false_iff, bool_decide_eq_true in H
  | H : negb (bool_decide _) = true |- _ =>
      apply negb_true_iff, bool_decide_eq_false in H
  | H : negb _ = false |- _ => apply negb_false_iff in H
  | H : negb _ = true |- _ => apply negb_true_iff in H
  | H : Some _ = Some _ |- _ => injection H as H
  | H : Some _ = None |- _ => discriminate H
  | H : None = Some _ |- _ => discriminate H
  end;
  subst.

Ltac rewrite_statuses :=
  repeat match goal with
  | H : status _ = _ |- _ => rewrite H
  end.

Ltac status_leaf :=
  unfold statusOf; cbn [db recordings];
  repeat split_lookup;
  repeat match goal with
  | H : recordings _ !! _ = _ |- _ => rewrite H
  end;
  cbn; try congruence; auto.

Lemma transcription_status (env : Env) (data : TranscriptionJobData)
    (w : World) (rid : string) :
  statusOf rid (world (transcriptionProcessor env data w)) = statusOf rid w \/
  statusOf rid (world (transcriptionProcessor env data w)) = Some failed.
Proof.
  execute_as w' H; status_leaf.
Qed.

Lemma transcription_success_keeps_status (env : Env)
    (data : TranscriptionJobData) (w w' : World) (res : TranscriptionResult)
    (rid : string) :
  transcriptionProcessor env data w = Ok res w' ->
  statusOf rid w' = statusOf rid w.
Proof.
  intros H. symmetry in H. execute_in H; status_leaf.
Qed.

Lemma debrief_status (env : Env) (data : DebriefJobData) (w : World)
    (rid : string) :
  statusOf rid (world (debriefProcessor env data w)) = statusOf rid w \/
  statusOf rid (world (debriefProcessor env data w)) = Some complete \/
  statusOf rid (world (debriefProcessor env data w)) = Some failed.
Proof. execute_as w' H; status_leaf. Qed.

Lemma retryDebriefJob_status (env : Env) (rid0 : string) (w : World)
    (rid : string) :
  statusOf rid (world (retryDebriefJob env rid0 w)) = statusOf rid w \/
  (rid = rid0 /\
   statusOf rid (world (retryDebriefJob env rid0 w)) = Some processing).
Proof. execute_as w' H; status_leaf. Qed.

Lemma retryTranscriptionJob_status (env : Env) (rid0 : string) (w : World)
    (rid : string) :
  statusOf rid (world (retryTranscriptionJob env rid0 w)) = statusOf rid w \/
  (rid = rid0 /\
   statusOf rid (world (retryTranscriptionJob env rid0 w)) = Some processing).
Proof. execute_as w' H; status_leaf. Qed.

Lemma completeUploadRoute_status (env : Env) (req : Request) (w : World)
    (rid : string) :
  statusOf rid (world (completeUploadRoute env req w)) = statusOf rid w \/
  (rid = paramId req /\ statusOf rid w = Some pending /\
   (statusOf rid (world (completeUploadRoute env req w)) = Some uploaded \/
    statusOf rid (world (completeUploadRoute env req w)) = Some processing)).
Proof.
  execute_as w' H; status_leaf; tidy; right; rewrite_statuses; auto.
Qed.

(** *** The invariant and the steps that keep it *)

Lemma InvC_insert recs ts ds dq rid r' :
  InvC recs ts ds dq ->
  (status r' = complete -> hasT rid ts /\ hasD rid ds) ->
  InvC (<[rid := r']> recs) ts ds dq.
Proof.
  intros [Hc Hq] Hr. split; [|exact Hq].
  intros rid0 r0 Hl Hs. destruct (decide (rid = rid0)) as [->|Hne].
  - rewrite lookup_insert_eq in Hl. injection Hl as <-. by apply Hr.
  - rewrite lookup_insert_ne in Hl by done. by eapply Hc.
Qed.

Lemma InvC_transcripts recs ts ts' ds dq :
  InvC recs ts ds dq ->
  (forall rid, hasT rid ts -> hasT rid ts') ->
  InvC recs ts' ds dq.
Proof.
  intros [Hc Hq] Hm. split.
  - intros rid r Hl Hs. destruct (Hc rid r Hl Hs). auto.
  - intros d Hd. auto.
Qed.

Lemma InvC_debriefs recs ts ds ds' dq :
  InvC recs ts ds dq ->
  (forall rid, hasD rid ds -> hasD rid ds') ->
  InvC recs ts ds' dq.
Proof.
  intros [Hc Hq] Hm. split; [|exact Hq].
  intros rid r Hl Hs. destruct (Hc rid r Hl Hs). auto.
Qed.

Lemma InvC_enqueue recs ts ds dq d :
  InvC recs ts ds dq ->
  hasT (dRecordingId d) ts ->
  InvC recs ts ds (dq ++ [d]).
Proof.
  intros [Hc Hq] Hd. split; [exact Hc|].
  intros d0 Hin. apply elem_of_app in Hin as [Hin|Hin]; [auto|].
  apply list_elem_of_singleton in Hin as ->. exact Hd.
Qed.

Lemma upsert_transcript_has rid upd create ts row ts' :
  (forall t, transcriptRecordingId (upd t) = transcriptRecordingId t) ->
  transcriptRecordingId create = rid ->
  upsertRow (forRecording rid) upd create ts = (row, ts') ->
  hasT rid ts' /\ (forall rid', hasT rid' ts -> hasT rid' ts').
Proof.
  intros Hupd Hc Hup.
  destruct (upsertRow_find transcriptRecordingId rid upd create ts Hupd Hc
              row ts' Hup) as [Hf Hm].
  split; [by eexists|exact Hm].
Qed.

Lemma upsert_debrief_has rid upd create ds row ds' :
  (forall b, debriefRecordingId (upd b) = debriefRecordingId b) ->
  debriefRecordingId create = rid ->
  upsertRow (debriefFor rid) upd create ds = (row, ds') ->
  hasD rid ds' /\ (forall rid', hasD rid' ds -> hasD rid' ds').
Proof.
  intros Hupd Hc Hup.
  destruct (upsertRow_find debriefRecordingId rid upd create ds Hupd Hc
              row ds' Hup) as [Hf Hm].
  split; [by eexists|exact Hm].
Qed.

Ltac upsert_facts :=
  repeat match goal with
  | H : upsertRow (forRecording _) _ _ _ = (_, _) |- _ =>
      apply upsert_transcript_has in H as [? ?]; [|reflexivity..]
  | H : upsertRow (debriefFor _) _ _ _ = (_, _) |- _ =>
      apply upsert_debrief_has in H as [? ?]; [|reflexivity..]
  end.

Ltac inv_side Hc :=
  cbn [applyRecordingData status dataStatus default dRecordingId statusData];
  try (intros; discriminate);
  intros;
  repeat match goal with
  | Hl : recordings _ !! ?rid = Some ?r, Hs : status ?r = complete |- _ =>
      destruct (Hc rid r Hl Hs); clear Hs
  end;
  try split;
  try (unfold hasT, transcriptOf in *;
       match goal with
       | H : find _ _ = Some _ |- _ => rewrite H; eauto
       end);
  eauto.

Ltac inv_leaf Hinv :=
  unfold Inv in *;
  cbn [db recordings transcripts debriefs debriefQueue] in *;
  upsert_facts; tidy;
  let Hc := fresh "Hc" in
  let Hq := fresh "Hq" in
  pose proof Hinv as [Hc Hq];
  repeat first
    [ exact Hinv
    | apply InvC_enqueue
    | apply InvC_insert
    | eapply InvC_transcripts; [|eassumption]
    | eapply InvC_debriefs; [|eassumption] ];
  inv_side Hc.

Lemma run_transcription_keeps_Inv (env : Env) (data : TranscriptionJobData)
    (w : World) :
  Inv w -> Inv (world (transcriptionProcessor env data w)).
Proof.
  intros Hinv. execute_as w' H; inv_leaf Hinv.
Qed.

Lemma run_debrief_keeps_Inv (env : Env) (data : DebriefJobData) (w : World) :
  Inv w -> data ∈ debriefQueue w ->
  Inv (world (debriefProcessor env data w)).
Proof.
  intros Hinv Hin.
  assert (hasT (dRecordingId data) (transcripts (db w))) as Hhas
    by (destruct Hinv as [_ Hq]; exact (Hq data Hin)).
  execute_as w' H; inv_leaf Hinv.
Qed.

Lemma complete_upload_keeps_Inv (env : Env) (req : Request) (w : World) :
  Inv w -> Inv (world (completeUploadRoute env req w)).
Proof. intros Hinv. execute_as w' H; inv_leaf Hinv. Qed.

Lemma retry_debrief_keeps_Inv (env : Env) (req : Request) (w : World) :
  Inv w -> Inv (world (retryDebriefRoute env req w)).
Proof. intros Hinv. execute_as w' H; inv_leaf Hinv. Qed.

Lemma retry_transcription_keeps_Inv (env : Env) (req : Request) (w : World) :
  Inv w -> Inv (world (retryTranscriptionRoute env req w)).
Proof. intros Hinv. execute_as w' H; inv_leaf Hinv. Qed.

Lemma create_recording_keeps_Inv (rid : string) (data : CreateRecordingInput)
    (w : World) :
  Inv w -> Inv (world (createRecording rid data w)).
Proof. intros Hinv. execute_as w' H; inv_leaf Hinv. Qed.

Lemma set_object_key_keeps_Inv (rid key : string) (w : World) :
  Inv w -> Inv (world (setRecordingObjectKey rid key w)).
Proof. intros Hinv. execute_as w' H; inv_leaf Hinv. Qed.

Lemma step_keeps_Inv (env : Env) (op : Op) (w : World) :
  Inv w -> enabled op w -> Inv (run env op w).
Proof.
  intros Hinv Hen. destruct op; cbn [run enabled] in *.
  - by apply create_recording_keeps_Inv.
  - by apply set_object_key_keeps_Inv.
  - by apply complete_upload_keeps_Inv.
  - by apply run_transcription_keeps_Inv.
  - by apply run_debrief_keeps_Inv.
  - by apply retry_debrief_keeps_Inv.
  - by apply retry_transcription_keeps_Inv.
Qed.

Lemma reachable_Inv (w : World) : reachable w -> Inv w.
Proof.
  induction 1 as [|env op w _ IH Hen].
  - split.
    + intros rid r Hl. cbn in Hl. by rewrite lookup_empty in Hl.
    + intros d Hd. cbn in Hd. by apply elem_of_nil in Hd.
  - by apply step_keeps_Inv.
Qed.

(** *** Which operation writes which status *)

Lemma debrief_status_complete (env : Env) (data : DebriefJobData) (w : World)
    (rid : string) :
  statusOf rid (world (debriefProcessor env data w)) = statusOf rid w \/
  statusOf rid (world (debriefProcessor env data w)) = Some failed \/
  (rid = dRecordingId data /\
   hasDebrief rid (world (debriefProcessor env data w))).
Proof.
  unfold hasDebrief, debriefOf.
  execute_as w' H; upsert_facts; cbn [db debriefs]; status_leaf.
Qed.

Lemma retryDebriefRoute_status (env : Env) (req : Request) (w : World)
    (rid : string) :
  statusOf rid (world (retryDebriefRoute env req w)) = statusOf rid w \/
  statusOf rid (world (retryDebriefRoute env req w)) = Some processing.
Proof. execute_as w' H; status_leaf. Qed.

Lemma retryTranscriptionRoute_status (env : Env) (req : Request) (w : World)
    (rid : string) :
  statusOf rid (world (retryTranscriptionRoute env req w)) = statusOf rid w \/
  statusOf rid (world (retryTranscriptionRoute env req w)) = Some processing.
Proof. execute_as w' H; status_leaf. Qed.

Lemma createRecording_status (rid0 : string) (data : CreateRecordingInput)
    (w : World) (rid : string) :
  statusOf rid (world (createRecording rid0 data w)) = statusOf rid w \/
  statusOf rid (world (createRecording rid0 data w)) = Some pending.
Proof. execute_as w' H; status_leaf. Qed.

Lemma setRecordingObjectKey_status (rid0 key : string) (w : World)
    (rid : string) :
  statusOf rid (world (setRecordingObjectKey rid0 key w)) = statusOf rid w.
Proof. execute_as w' H; status_leaf. Qed.

Lemma only_debrief_worker_completes (env : Env) (op : Op) (w : World)
    (rid : string) :
  statusOf rid (run env op w) = Some complete ->
  statusOf rid w = Some complete \/
  exists data, op = RunDebrief data /\ rid = dRecordingId data /\
               hasDebrief rid (run env op w).
Proof.
  destruct op; cbn [run]; intros Hc.
  - destruct (createRecording_status rid0 data w rid) as [<-|?];
      [by left|congruence].
  - rewrite setRecordingObjectKey_status in Hc. by left.
  - destruct (completeUploadRoute_status env req w rid)
      as [<-|(_ & _ & [?|?])]; [by left|congruence..].
  - destruct (transcription_status env data w rid) as [<-|?];
      [by left|congruence].
  - destruct (debrief_status_complete env data w rid) as [<-|[?|[-> ?]]];
      [by left|congruence|]. right. by exists data.
  - destruct (retryDebriefRoute_status env req w rid) as [<-|?];
      [by left|congruence].
  - destruct (retryTranscriptionRoute_status env req w rid) as [<-|?];
      [by left|congruence].
Qed.

(** ** C1: when a Recording becomes [complete] *)

(** The order of writes: in the events of any one operation, and so in
    every history the operations produce, a status is set to [complete]
    only after the Debrief row of that recording has been written. *)
Ltac trace_leaf :=
  unfold added; cbn [trace tJobId dJobId];
  rewrite <- ?app_assoc; cbn [app];
  first [ eexists; split; [reflexivity|]
        | exists []; split; [by rewrite app_nil_r|] ].

Ltac complete_solver :=
  unfold CompleteAfterDebriefPersisted;
  let i := fresh "i" in
  let Hi := fresh "Hi" in
  intros i ? Hi;
  repeat (destruct i as [|i]; cbn in Hi; try discriminate Hi);
  simplify_eq;
  by (exists 0%nat; split; [lia|reflexivity]).

Lemma run_complete_after_debrief_persisted (env : Env) (op : Op) (w : World) :
  exists evs,
    added w (run env op w) evs /\ CompleteAfterDebriefPersisted evs.
Proof.
  destruct op; cbn [run]; execute_as w' H; trace_leaf; complete_solver.
Qed.

Lemma CompleteAfterDebriefPersisted_app (l1 l2 : list Event) :
  CompleteAfterDebriefPersisted l1 -> CompleteAfterDebriefPersisted l2 ->
  CompleteAfterDebriefPersisted (l1 ++ l2).
Proof.
  intros H1 H2 i rid Hi.
  destruct (decide (i < length l1)%nat) as [Hlt|Hge].
  - rewrite lookup_app_l in Hi by exact Hlt.
    destruct (H1 i rid Hi) as (i' & Hlt' & Hi').
    exists i'. split; [exact Hlt'|].
    rewrite lookup_app_l by lia. exact Hi'.
  - rewrite lookup_app_r in Hi by lia.
    destruct (H2 _ rid Hi) as (i' & Hlt' & Hi').
    exists (length l1 + i')%nat. split; [lia|].
    rewrite lookup_app_r by lia.
    by replace (length l1 + i' - length l1)%nat with i' by lia.
Qed.

Lemma reachable_complete_after_debrief_persisted (w : World) :
  reachable w -> CompleteAfterDebriefPersisted (trace w).
Proof.
  induction 1 as [|env op w _ IH _].
  - intros i rid Hi. cbn in Hi. by rewrite lookup_nil in Hi.
  - destruct (run_complete_after_debrief_persisted env op w)
      as (evs & Hadd & Hevs).
    rewrite Hadd. by apply CompleteAfterDebriefPersisted_app.
Qed.

(** The event stands for the row: in every state the operations reach,
    a recording whose Debrief write is in the history has a Debrief. *)
Ltac persisted_leaf Hinv :=
  let rid := fresh "rid" in
  let Hin := fresh "Hin" in
  intros rid Hin; cbn [trace db debriefs] in *;
  upsert_facts;
  repeat match goal with
         | H : _ ∈ _ ++ _ |- _ => apply elem_of_app in H as [H|H]
         end;
  try (apply list_elem_of_singleton in Hin; simplify_eq);
  eauto.

Lemma step_keeps_persisted_has_debrief (env : Env) (op : Op) (w : World) :
  (forall rid, DebriefPersisted rid ∈ trace w -> hasD rid (debriefs (db w))) ->
  forall rid, DebriefPersisted rid ∈ trace (run env op w) ->
              hasD rid (debriefs (db (run env op w))).
Proof.
  intros Hinv. destruct op; cbn [run]; execute_as w' H; persisted_leaf Hinv.
Qed.

Lemma reachable_persisted_has_debrief (w : World) :
  reachable w ->
  forall rid, DebriefPersisted rid ∈ trace w -> hasDebrief rid w.
Proof.
  induction 1 as [|env op w _ IH _].
  - intros rid Hin. cbn in Hin. by apply elem_of_nil in Hin.
  - by apply step_keeps_persisted_has_debrief.
Qed.

(** C1, as the code has it. A successful run of the transcription worker
    leaves every Recording status as it was. Among the operations of the
    pipeline (create, set object key, complete-upload, the two worker
    runs, the two retries) only a run of the debrief worker makes a
    Recording [complete], and then that Recording has a Debrief. In the
    writes of any one of these operations, in the order they are made, a
    status is set to [complete] only after the Debrief row of that
    recording has been written; the same holds of every history these
    operations produce, and a recording whose Debrief write is in the
    history has a Debrief. Hence in every state they can reach, a
    [complete] Recording has both a Transcript and a Debrief.
    ([saveTranscript] is not one of these operations; see the
    counterexample.) *)
Theorem complete_only_by_debrief_worker_in_pipeline :
  (forall env data w w' res rid,
     Pipeline.transcriptionProcessor env data w = Pipeline.Ok res w' ->
     Pipeline.statusOf rid w' = Pipeline.statusOf rid w) /\
  (forall env op w rid,
     Pipeline.statusOf rid (Pipeline.run env op w) = Some Pipeline.complete ->
     Pipeline.statusOf rid w = Some Pipeline.complete \/
     exists data, op = Pipeline.RunDebrief data /\
                  rid = Pipeline.dRecordingId data /\
                  Pipeline.hasDebrief rid (Pipeline.run env op w)) /\
  (forall env op w,
     exists evs,
       Pipeline.added w (Pipeline.run env op w) evs /\
       Pipeline.CompleteAfterDebriefPersisted evs) /\
  (forall w, Pipeline.reachable w ->
     Pipeline.CompleteAfterDebriefPersisted (Pipeline.trace w)) /\
  (forall w, Pipeline.reachable w ->
     forall rid, Pipeline.DebriefPersisted rid ∈ Pipeline.trace w ->
       Pipeline.hasDebrief rid w) /\
  (forall w, Pipeline.reachable w ->
     forall rid, Pipeline.statusOf rid w = Some Pipeline.complete ->
       Pipeline.hasTranscript rid w /\ Pipeline.hasDebrief rid w).
Proof.
  split; [|split; [|split; [|split; [|split]]]].
  - intros env data w w' res rid H.
    by eapply transcription_success_keeps_status.
  - apply only_debrief_worker_completes.
  - apply run_complete_after_debrief_persisted.
  - apply reachable_complete_after_debrief_persisted.
  - apply reachable_persisted_has_debrief.
  - intros w Hr rid Hs. apply reachable_Inv in Hr as [Hc _].
    unfold Pipeline.statusOf in Hs.
    destruct (Pipeline.recordings (Pipeline.db w) !! rid) as [r|] eqn:Hl;
      [|discriminate].
    injection Hs as Hs. exact (Hc rid r Hl Hs).
Qed.

(** The demo run is the happy path: upload complete, TRANSCRIBE Job
    created and enqueued, Recording [processing]; transcription stores the
    Transcript and chains a DEBRIEF Job; the debrief stores the Debrief
    and completes the Recording. *)
Example demo_happy_path :
  statusOf "r1" Demo.wPending = Some pending /\
  statusOf "r1" Demo.wProcessing = Some processing /\
  statusOf "r1" Demo.wTranscribed = Some processing /\
  statusOf "r1" Demo.wComplete = Some complete /\
  (jobStatus <$> jobs (db Demo.wComplete)) = [job_complete; job_complete] /\
  trace Demo.wComplete =
    [RecordingStatusSet "r1" uploaded; JobRowCreated 0 TRANSCRIBE;
     EnqueueAttempted TRANSCRIBE 0; RecordingStatusSet "r1" processing;
     JobRowCreated 1 DEBRIEF; EnqueueAttempted DEBRIEF 1;
     DebriefPersisted "r1"; RecordingStatusSet "r1" complete].
Proof. vm_compute. repeat split. Qed.

(** With the summary provider failing, the Recording ends [failed], the
    DEBRIEF Job [failed] with the provider's message, and the Transcript
    is still there. *)
Example demo_debrief_failure :
  statusOf "r1" Demo.wDebriefFailed = Some failed /\
  (jobStatus <$> jobs (db Demo.wDebriefFailed)) = [job_complete; job_failed] /\
  (error <$> jobs (db Demo.wDebriefFailed)) = [None; Some "provider timeout"] /\
  (text <$> transcriptOf "r1" (db Demo.wDebriefFailed)) = Some "hello".
Proof. vm_compute. repeat split. Qed.

Lemma demo_reachable :
  Pipeline.reachable Demo.wProcessing /\
  Pipeline.reachable Demo.wComplete /\
  Pipeline.reachable Demo.wDebriefFailed.
Proof.
  assert (Pipeline.reachable Demo.wProcessing) as Hp.
  { repeat (apply Pipeline.reachable_step; [|exact I]).
    apply Pipeline.reachable_empty. }
  assert (Pipeline.reachable Demo.wTranscribed) as Ht.
  { apply Pipeline.reachable_step; [exact Hp|].
    vm_compute. apply list_elem_of_here. }
  split; [exact Hp|].
  split; (apply Pipeline.reachable_step; [exact Ht|]);
    vm_compute; apply list_elem_of_here.
Defined.

Lemma complete_only_by_debrief_worker_in_pipeline_witness :
  Pipeline.hasTranscript "r1" Demo.wComplete /\
  Pipeline.hasDebrief "r1" Demo.wComplete.
Proof.
  destruct complete_only_by_debrief_worker_in_pipeline
    as (_ & _ & _ & _ & _ & H).
  apply (H Demo.wComplete).
  - exact (proj1 (proj2 demo_reachable)).
  - vm_compute. reflexivity.
Defined.

(** C1 as stated fails on [saveTranscript]: in the state the demo run is
    in after complete-upload (Recording [processing], no Debrief),
    [saveTranscript] writes the Transcript and sets the Recording
    [complete], and there is still no Debrief. *)
Lemma saveTranscript_completes_without_debrief :
  Pipeline.statusOf "r1" Demo.wProcessing = Some Pipeline.processing /\
  Pipeline.statusOf "r1"
    (Pipeline.world (Pipeline.saveTranscript "r1" "hello" None "en"
                       Demo.wProcessing))
  = Some Pipeline.complete /\
  Pipeline.debriefOf "r1"
    (Pipeline.db (Pipeline.world (Pipeline.saveTranscript "r1" "hello" None "en"
                                    Demo.wProcessing)))
  = None.
Proof. vm_compute. repeat split. Qed.

(** ** C6: running the persistence step twice *)

Lemma demo_retranscription_reachable :
  Pipeline.reachable Demo.wRetried /\ Pipeline.reachable Demo.wRetranscribed.
Proof.
  assert (Pipeline.reachable Demo.wTranscribed) as Ht.
  { apply Pipeline.reachable_step; [exact (proj1 demo_reachable)|].
    vm_compute. apply list_elem_of_here. }
  assert (Pipeline.reachable Demo.wRetried) as Hr
    by (apply Pipeline.reachable_step; [exact Ht|exact I]).
  split; [exact Hr|].
  apply Pipeline.reachable_step; [exact Hr|].
  vm_compute. apply list_elem_of_further, list_elem_of_here.
Qed.

(** C6 does not hold on the code when the later output carries no
    segments. In the demo run the Transcript is stored with the segments
    the provider gave. Retry-transcription enqueues the recording again,
    and the worker runs with a provider whose output has no segments:
    there is one Transcript row, with the text and the language of the
    later output and the segments of the earlier one. The same happens
    with two calls of [saveTranscript] of which the later is given no
    segments, and with two runs of the persistence step alone. *)
Theorem later_output_without_segments_keeps_earlier_segments :
  Pipeline.reachable Demo.wRetranscribed /\
  Demo.retranscriptionData ∈ transcriptionQueue Demo.wRetried /\
  transcripts (db Demo.wTranscribed) = [Demo.transcriptRow] /\
  pSegments Demo.outputWithoutSegments = None /\
  transcripts (db Demo.wRetranscribed)
  = [{| transcriptId := 0%nat; transcriptRecordingId := "r1";
        text := "bonjour"; segments := Some [Demo.segment];
        language := "fr" |}] /\
  (exists w1 w2,
     saveTranscript "r1" "first" (Some [Demo.segment]) "en" Demo.wProcessing
     = Ok tt w1 /\
     saveTranscript "r1" "second" None "fr" w1 = Ok tt w2 /\
     transcripts (db w2)
     = [{| transcriptId := 0%nat; transcriptRecordingId := "r1";
           text := "second"; segments := Some [Demo.segment];
           language := "fr" |}]) /\
  (exists t1 w1 t2 w2,
     persistTranscript "r1" Demo.providerOutput Demo.wProcessing = Ok t1 w1 /\
     persistTranscript "r1" Demo.outputWithoutSegments w1 = Ok t2 w2 /\
     transcripts (db w2) = [t2] /\
     text t2 = "bonjour" /\
     language t2 = "fr" /\
     segments t2 = Some [Demo.segment]).
Proof.
  split; [exact (proj2 demo_retranscription_reachable)|].
  split; [vm_compute; apply list_elem_of_further, list_elem_of_here|].
  split; [vm_compute; reflexivity|]. split; [reflexivity|].
  split; [vm_compute; reflexivity|]. split.
  - eexists _, _. vm_compute. repeat split.
  - eexists _, _, _, _. vm_compute. repeat split.
Qed.

(** *** [updateJobStatus] *)

Lemma updateJobStatus_found (env : Env) (w : World) (jobId : nat) (j : Job)
    (s : JobStatus) (err : option string) :
  jobs (db w) !! jobId = Some j ->
  updateJobStatus env jobId s err w
  = Ok tt (withDb w (setJobs (db w) (<[jobId := jobAfter env s err j]> (jobs (db w))))).
Proof.
  intros Hj. unfold updateJobStatus, db_job_update. rewrite Hj.
  do 3 f_equal. unfold applyJobData, jobAfter. cbn.
  destruct s, err as [e|]; try destruct (truthy e); reflexivity.
Qed.



(** ** C5: Job status transitions *)




(** ** C2: a failing worker run *)


(** The rows a worker is given are still there when its [try] block
    ends, however it ends. *)
Ltac rows_leaf :=
  cbn [db jobs recordings];
  repeat first [rewrite length_insert | rewrite length_app];
  rewrite ?(lookup_insert_is_Some' (M := gmap string));
  cbn [length]; auto; try lia.

Lemma transcriptionTry_keeps_rows (env : Env) (data : TranscriptionJobData)
    (w : World) (i : nat) (rid : string) :
  (i < length (jobs (db w)))%nat ->
  is_Some (recordings (db w) !! rid) ->
  (i < length (jobs (db (world (transcriptionTry env data w)))))%nat /\
  is_Some (recordings (db (world (transcriptionTry env data w))) !! rid).
Proof.
  intros Hi Hr. execute_as w' H; split; rows_leaf.
Qed.

Lemma debriefTry_keeps_rows (env : Env) (data : DebriefJobData)
    (w : World) (i : nat) (rid : string) :
  (i < length (jobs (db w)))%nat ->
  is_Some (recordings (db w) !! rid) ->
  (i < length (jobs (db (world (debriefTry env data w)))))%nat /\
  is_Some (recordings (db (world (debriefTry env data w))) !! rid).
Proof.
  intros Hi Hr. execute_as w' H; split; rows_leaf.
Qed.

(** The [catch] block on a world that has both rows. *)
Lemma onWorkerError_writes {A} (env : Env) (rid : string) (jobId : nat)
    (e : Exn) (w1 : World) (j1 : Job) (r1 : Recording) :
  jobs (db w1) !! jobId = Some j1 ->
  recordings (db w1) !! rid = Some r1 ->
  exists w2,
    @onWorkerError A env rid jobId e w1 = Throw e w2 /\
    jobs (db w2) !! jobId
    = Some (jobAfter env job_failed (Some (messageOr "Unknown error" e)) j1) /\
    statusOf rid w2 = Some failed.
Proof.
  intros Hj Hr. unfold onWorkerError, bind.
  rewrite (updateJobStatus_found env w1 jobId j1 _ _ Hj).
  unfold db_recording_update. cbn [withDb db setJobs recordings].
  rewrite Hr. unfold throw. eexists. split; [reflexivity|].
  unfold statusOf. cbn. rewrite lookup_insert_eq. split; [|done].
  apply list_lookup_insert_eq. by eapply lookup_lt_Some.
Qed.

Lemma rows_after_throw {A} (m : M A) (w w1 : World) (e : Exn)
    (jobId : nat) (rid : string) :
  m w = Throw e w1 ->
  ((jobId < length (jobs (db (world (m w)))))%nat /\
   is_Some (recordings (db (world (m w))) !! rid)) ->
  exists j1 r1,
    jobs (db w1) !! jobId = Some j1 /\ recordings (db w1) !! rid = Some r1.
Proof.
  intros Hm. rewrite Hm. cbn [world]. intros [Hj [r1 Hr]].
  apply lookup_lt_is_Some in Hj as [j1 Hj]. eauto.
Qed.


(** In the states the pipeline's own operations reach, the rows a queued
    payload names do exist. *)
Ltac queued_leaf Hinv :=
  let Ht := fresh "Ht" in
  let Hd := fresh "Hd" in
  let p := fresh "p" in
  let Hin := fresh "Hin" in
  destruct Hinv as [Ht Hd];
  split; intros p Hin; cbn [transcriptionQueue debriefQueue] in Hin;
  try (apply elem_of_app in Hin as [Hin|Hin];
       [|apply list_elem_of_singleton in Hin; subst p]);
  cbn [db jobs recordings tJobId tRecordingId dJobId dRecordingId];
  try (first [apply Ht in Hin as [? ?] | apply Hd in Hin as [? ?]]);
  repeat first [rewrite length_insert | rewrite length_app];
  rewrite ?(lookup_insert_is_Some' (M := gmap string));
  cbn [length]; tidy;
  (split; [lia | eauto]).

Lemma step_keeps_QueuedRowsExist (env : Env) (op : Op) (w : World) :
  QueuedRowsExist w -> QueuedRowsExist (run env op w).
Proof.
  intros Hinv. destruct op; cbn [run]; execute_as w' H; queued_leaf Hinv.
Qed.

Lemma reachable_QueuedRowsExist (w : World) :
  reachable w -> QueuedRowsExist w.
Proof.
  induction 1 as [|env op w _ IH _].
  - split; intros d Hd; cbn in Hd; by apply elem_of_nil in Hd.
  - by apply step_keeps_QueuedRowsExist.
Qed.

(** The [catch] block after any [try] block: whatever step threw, when
    the two rows are there as the exception is caught, the run ends by
    throwing that same exception with the Job row [failed], [completedAt]
    stamped and the Recording [failed]; the error text is the captured
    message when that message is not empty. *)
Lemma failure_recorded_by_catch_block {A} (env : Env) (m : M A)
    (rid : string) (jobId : nat) (w w1 : World) (e : Exn)
    (j1 : Job) (r1 : Recording) :
  m w = Throw e w1 ->
  jobs (db w1) !! jobId = Some j1 ->
  recordings (db w1) !! rid = Some r1 ->
  exists w2 j2,
    tryCatch m (onWorkerError env rid jobId) w = Throw e w2 /\
    jobs (db w2) !! jobId = Some j2 /\
    jobStatus j2 = job_failed /\
    completedAt j2 = Some (now env) /\
    (truthy (messageOr "Unknown error" e) = true ->
     error j2 = Some (messageOr "Unknown error" e)) /\
    (truthy (messageOr "Unknown error" e) = false -> error j2 = error j1) /\
    statusOf rid w2 = Some failed.
Proof.
  intros Hthrow Hj Hr.
  destruct (onWorkerError_writes (A := A) env rid jobId e w1 j1 r1 Hj Hr)
    as (w2 & Hh & Hj2 & Hs).
  exists w2, (jobAfter env job_failed (Some (messageOr "Unknown error" e)) j1).
  unfold tryCatch. rewrite Hthrow.
  split; [exact Hh|]. split; [exact Hj2|]. cbn.
  repeat split; [intros -> | intros -> | exact Hs]; reflexivity.
Qed.

(** X7. In either worker, whatever step of the [try] block throws: when
    the Job row and the Recording row of the payload exist as the run
    begins, the run ends by throwing that same exception, with the Job
    row [failed], the Recording [failed], and the captured message as the
    error text of the Job row whenever that message is not empty. *)
Theorem worker_failure_recorded_when_message_not_empty :
  (forall env data w e w1 j r,
     transcriptionTry env data w = Throw e w1 ->
     jobs (db w) !! tJobId data = Some j ->
     recordings (db w) !! tRecordingId data = Some r ->
     exists w2 j2,
       transcriptionProcessor env data w = Throw e w2 /\
       jobs (db w2) !! tJobId data = Some j2 /\
       jobStatus j2 = job_failed /\
       (truthy (messageOr "Unknown error" e) = true ->
        error j2 = Some (messageOr "Unknown error" e)) /\
       statusOf (tRecordingId data) w2 = Some failed) /\
  (forall env data w e w1 j r,
     debriefTry env data w = Throw e w1 ->
     jobs (db w) !! dJobId data = Some j ->
     recordings (db w) !! dRecordingId data = Some r ->
     exists w2 j2,
       debriefProcessor env data w = Throw e w2 /\
       jobs (db w2) !! dJobId data = Some j2 /\
       jobStatus j2 = job_failed /\
       (truthy (messageOr "Unknown error" e) = true ->
        error j2 = Some (messageOr "Unknown error" e)) /\
       statusOf (dRecordingId data) w2 = Some failed).
Proof.
  split; intros env data w e w1 j r Hthrow Hj Hr.
  - destruct (rows_after_throw _ w w1 e (tJobId data) (tRecordingId data) Hthrow)
      as (j1 & r1 & Hj1 & Hr1).
    { apply transcriptionTry_keeps_rows; [by eapply lookup_lt_Some|eauto]. }
    destruct (failure_recorded_by_catch_block env _ _ _ w w1 e j1 r1
                Hthrow Hj1 Hr1)
      as (w2 & j2 & Hrun & Hj2 & Hst & _ & Herr & _ & Hrec).
    exists w2, j2. auto.
  - destruct (rows_after_throw _ w w1 e (dJobId data) (dRecordingId data) Hthrow)
      as (j1 & r1 & Hj1 & Hr1).
    { apply debriefTry_keeps_rows; [by eapply lookup_lt_Some|eauto]. }
    destruct (failure_recorded_by_catch_block env _ _ _ w w1 e j1 r1
                Hthrow Hj1 Hr1)
      as (w2 & j2 & Hrun & Hj2 & Hst & _ & Herr & _ & Hrec).
    exists w2, j2. auto.
Qed.

Lemma worker_failure_recorded_when_message_not_empty_witness :
  exists w2,
    debriefProcessor Demo.envDebriefFails Demo.debriefData Demo.wTranscribed
    = Throw (ErrorObj "provider timeout") w2 /\
    statusOf "r1" w2 = Some failed /\
    error <$> jobs (db w2) !! 1%nat = Some (Some "provider timeout").
Proof.
  destruct worker_failure_recorded_when_message_not_empty as [_ H].
  edestruct (H Demo.envDebriefFails Demo.debriefData Demo.wTranscribed)
    as (w2 & j2 & Hrun & Hj2 & _ & Herr & Hs).
  - vm_compute. reflexivity.
  - vm_compute. reflexivity.
  - vm_compute. reflexivity.
  - exists w2. split; [exact Hrun|]. split; [exact Hs|].
    change (jobs (db w2) !! 1%nat = Some j2) in Hj2.
    rewrite Hj2. cbn. f_equal. exact (Herr eq_refl).
Defined.

(** C2 does not hold on the code when the exception caught has an empty
    message. In the demo run the debrief Job has failed once with
    "provider timeout"; the payload is still on the queue, and the state
    is one the pipeline reaches. When the queue runs the payload again
    and the provider throws an [Error] whose message is empty, the worker
    re-raises it with the Job row [failed] and the Recording [failed], but
    the error text of the Job row is still "provider timeout" and not the
    message captured. On a first failure of that kind the error text stays
    empty of any value. *)
Theorem worker_failure_with_empty_message_not_recorded_on_job_row :
  (reachable Demo.wDebriefFailed /\
   Demo.debriefData ∈ debriefQueue Demo.wDebriefFailed /\
   exists w1 w2,
     debriefTry Demo.envEmptyMessage Demo.debriefData Demo.wDebriefFailed
     = Throw (ErrorObj "") w1 /\
     debriefProcessor Demo.envEmptyMessage Demo.debriefData Demo.wDebriefFailed
     = Throw (ErrorObj "") w2 /\
     messageOr "Unknown error" (ErrorObj "") = "" /\
     jobStatus <$> jobs (db w2) !! 1%nat = Some job_failed /\
     statusOf "r1" w2 = Some failed /\
     error <$> jobs (db w2) !! 1%nat = Some (Some "provider timeout")) /\
  (Demo.debriefData ∈ debriefQueue Demo.wTranscribed /\
   exists w2,
     debriefProcessor Demo.envEmptyMessage Demo.debriefData Demo.wTranscribed
     = Throw (ErrorObj "") w2 /\
     jobStatus <$> jobs (db w2) !! 1%nat = Some job_failed /\
     statusOf "r1" w2 = Some failed /\
     error <$> jobs (db w2) !! 1%nat = Some None).
Proof.
  split.
  - split; [exact (proj2 (proj2 demo_reachable))|].
    split; [vm_compute; apply list_elem_of_here|].
    eexists _, _. vm_compute. repeat split.
  - split; [vm_compute; apply list_elem_of_here|].
    eexists. vm_compute. repeat split.
Qed.

(** ** C3: the order of Job row, enqueue and status change *)


Ltac events_solver :=
  unfold JobRowBeforeEnqueue, EnqueueBeforeProcessing;
  let i := fresh "i" in
  intros i; intros;
  match goal with
  | Hi : _ !! i = Some _ |- _ =>
      repeat (destruct i as [|i]; cbn in Hi; try discriminate Hi);
      simplify_eq;
      first [ by (exists 1%nat; split; [lia|reflexivity])
            | by (exists 2%nat, TRANSCRIBE; eexists; split; [lia|reflexivity]) ]
  end.

Lemma completeUploadRoute_order (env : Env) (req : Request) (w : World) :
  exists evs,
    added w (world (completeUploadRoute env req w)) evs /\
    JobRowBeforeEnqueue evs /\ EnqueueBeforeProcessing evs.
Proof.
  execute_as w' H; trace_leaf; split; events_solver.
Qed.

Lemma retryDebriefJob_order (env : Env) (rid : string) (w : World) :
  exists evs,
    added w (world (retryDebriefJob env rid w)) evs /\
    (evs = [] \/
     exists jobId,
       evs = [RecordingStatusSet rid processing; JobRowCreated jobId DEBRIEF;
              EnqueueAttempted DEBRIEF jobId]).
Proof.
  execute_as w' H; trace_leaf; eauto.
Qed.

Lemma retryTranscriptionJob_order (env : Env) (rid : string) (w : World) :
  exists evs,
    added w (world (retryTranscriptionJob env rid w)) evs /\
    (evs = [] \/
     exists jobId,
       evs = [RecordingStatusSet rid processing; JobRowCreated jobId TRANSCRIBE;
              EnqueueAttempted TRANSCRIBE jobId]).
Proof.
  execute_as w' H; trace_leaf; eauto.
Qed.

Lemma retryDebriefRoute_order (env : Env) (req : Request) (w : World) :
  exists evs,
    added w (world (retryDebriefRoute env req w)) evs /\
    (evs = [] \/
     exists jobId,
       evs = [RecordingStatusSet (paramId req) processing;
              JobRowCreated jobId DEBRIEF; EnqueueAttempted DEBRIEF jobId]).
Proof.
  execute_as w' H; trace_leaf; eauto.
Qed.

Lemma retryTranscriptionRoute_order (env : Env) (req : Request) (w : World) :
  exists evs,
    added w (world (retryTranscriptionRoute env req w)) evs /\
    (evs = [] \/
     exists jobId,
       evs = [RecordingStatusSet (paramId req) processing;
              JobRowCreated jobId TRANSCRIBE;
              EnqueueAttempted TRANSCRIBE jobId]).
Proof.
  execute_as w' H; trace_leaf; eauto.
Qed.

Lemma retry_shape_JobRowBeforeEnqueue (rid : string) (ty : JobType)
    (evs : list Event) :
  (evs = [] \/
   exists jobId,
     evs = [RecordingStatusSet rid processing; JobRowCreated jobId ty;
            EnqueueAttempted ty jobId]) ->
  JobRowBeforeEnqueue evs.
Proof.
  intros [->|[jobId ->]] i ty' jobId' Hi.
  - by rewrite lookup_nil in Hi.
  - repeat (destruct i as [|i]; cbn in Hi; try discriminate Hi).
    injection Hi as <- <-. exists 1%nat. split; [lia|reflexivity].
Qed.

Lemma retry_events_processing_first (rid : string) (jobId : nat)
    (ty : JobType) :
  ~ EnqueueBeforeProcessing
      [RecordingStatusSet rid processing; JobRowCreated jobId ty;
       EnqueueAttempted ty jobId].
Proof.
  intros H. destruct (H 0%nat rid eq_refl) as (i' & _ & _ & Hlt & _). lia.
Qed.


(** C3, as the code has it. In mark-upload-complete, retry-debrief and
    retry-transcription every enqueue comes after the creation of the Job
    row it carries. In mark-upload-complete the status is set to
    [processing] only after the enqueue. The two retry operations (the
    functions and the routes that call them) work in the other order:
    when they write at all, they first set the status to [processing],
    then create the Job row, then enqueue. *)
Theorem job_row_created_before_enqueue_retries_flip_status_first :
  (forall env req w,
     exists evs,
       added w (world (completeUploadRoute env req w)) evs /\
       JobRowBeforeEnqueue evs /\
       EnqueueBeforeProcessing evs) /\
  (forall env rid w,
     exists evs,
       added w (world (retryDebriefJob env rid w)) evs /\
       JobRowBeforeEnqueue evs /\
       (evs = [] \/
        exists jobId,
          evs = [RecordingStatusSet rid processing;
                 JobRowCreated jobId DEBRIEF;
                 EnqueueAttempted DEBRIEF jobId])) /\
  (forall env rid w,
     exists evs,
       added w (world (retryTranscriptionJob env rid w)) evs /\
       JobRowBeforeEnqueue evs /\
       (evs = [] \/
        exists jobId,
          evs = [RecordingStatusSet rid processing;
                 JobRowCreated jobId TRANSCRIBE;
                 EnqueueAttempted TRANSCRIBE jobId])) /\
  (forall env req w,
     exists evs,
       added w (world (retryDebriefRoute env req w)) evs /\
       JobRowBeforeEnqueue evs /\
       (evs = [] \/
        exists jobId,
          evs = [RecordingStatusSet (paramId req) processing;
                 JobRowCreated jobId DEBRIEF;
                 EnqueueAttempted DEBRIEF jobId])) /\
  (forall env req w,
     exists evs,
       added w (world (retryTranscriptionRoute env req w)) evs /\
       JobRowBeforeEnqueue evs /\
       (evs = [] \/
        exists jobId,
          evs = [RecordingStatusSet (paramId req) processing;
                 JobRowCreated jobId TRANSCRIBE;
                 EnqueueAttempted TRANSCRIBE jobId])).
Proof.
  split; [apply completeUploadRoute_order|].
  split; [|split; [|split]].
  - intros env rid w.
    destruct (retryDebriefJob_order env rid w) as (evs & Ha & Hshape).
    exists evs. eauto using retry_shape_JobRowBeforeEnqueue.
  - intros env rid w.
    destruct (retryTranscriptionJob_order env rid w) as (evs & Ha & Hshape).
    exists evs. eauto using retry_shape_JobRowBeforeEnqueue.
  - intros env req w.
    destruct (retryDebriefRoute_order env req w) as (evs & Ha & Hshape).
    exists evs. eauto using retry_shape_JobRowBeforeEnqueue.
  - intros env req w.
    destruct (retryTranscriptionRoute_order env req w) as (evs & Ha & Hshape).
    exists evs. eauto using retry_shape_JobRowBeforeEnqueue.
Qed.

(** C3 as stated fails on retry-debrief: after the failed debrief of the
    demo run, [retryDebriefJob] sets the Recording to [processing] as its
    first write, before the Job row exists and before any enqueue. *)
Lemma retryDebriefJob_sets_processing_before_any_enqueue :
  Pipeline.added Demo.wDebriefFailed
    (Pipeline.world (Pipeline.retryDebriefJob Demo.env0 "r1" Demo.wDebriefFailed))
    [Pipeline.RecordingStatusSet "r1" Pipeline.processing;
     Pipeline.JobRowCreated 2 Pipeline.DEBRIEF;
     Pipeline.EnqueueAttempted Pipeline.DEBRIEF 2] /\
  ~ Pipeline.EnqueueBeforeProcessing
      [Pipeline.RecordingStatusSet "r1" Pipeline.processing;
       Pipeline.JobRowCreated 2 Pipeline.DEBRIEF;
       Pipeline.EnqueueAttempted Pipeline.DEBRIEF 2].
Proof.
  split; [vm_compute; reflexivity|apply retry_events_processing_first].
Qed.

(** ** C4: which status changes the operations make *)


Lemma retryDebriefJob_sets_processing (env : Env) (rid : string) (w : World)
    (r : Recording) :
  recordings (db w) !! rid = Some r ->
  hasTranscript rid w ->
  statusOf rid (world (retryDebriefJob env rid w)) = Some processing.
Proof.
  intros Hr [t Ht]. execute_as w' H; try congruence; status_leaf.
Qed.

Lemma retryTranscriptionJob_sets_processing (env : Env) (rid : string)
    (w : World) (r : Recording) (key : string) :
  recordings (db w) !! rid = Some r ->
  objectKey r = Some key -> truthy key = true ->
  statusOf rid (world (retryTranscriptionJob env rid w)) = Some processing.
Proof.
  intros Hr Hk Ht. execute_as w' H; tidy; try congruence; status_leaf.
Qed.

(** C4, as the code has it. Mark-upload-complete changes the status of
    the Recording it is called for only, only when that status is
    [pending], and only to [uploaded] or [processing]. The transcription
    worker changes a status to [failed] only; the debrief worker to
    [complete] or [failed] only. A retry operation (function or route)
    changes the status of its Recording to [processing] only, and it does
    so from any status:
    retry-debrief whenever the Recording exists and has a Transcript,
    retry-transcription whenever it exists and has an object key. *)
Theorem status_changes_made_by_each_operation :
  (forall env req w rid,
     statusOf rid (world (completeUploadRoute env req w)) = statusOf rid w \/
     (rid = paramId req /\ statusOf rid w = Some pending /\
      (statusOf rid (world (completeUploadRoute env req w)) = Some uploaded \/
       statusOf rid (world (completeUploadRoute env req w)) = Some processing))) /\
  (forall env data w rid,
     statusOf rid (world (transcriptionProcessor env data w)) = statusOf rid w \/
     statusOf rid (world (transcriptionProcessor env data w)) = Some failed) /\
  (forall env data w rid,
     statusOf rid (world (debriefProcessor env data w)) = statusOf rid w \/
     statusOf rid (world (debriefProcessor env data w)) = Some complete \/
     statusOf rid (world (debriefProcessor env data w)) = Some failed) /\
  (forall env rid0 w rid,
     statusOf rid (world (retryDebriefJob env rid0 w)) = statusOf rid w \/
     (rid = rid0 /\
      statusOf rid (world (retryDebriefJob env rid0 w)) = Some processing)) /\
  (forall env rid0 w rid,
     statusOf rid (world (retryTranscriptionJob env rid0 w)) = statusOf rid w \/
     (rid = rid0 /\
      statusOf rid (world (retryTranscriptionJob env rid0 w)) = Some processing)) /\
  (forall env req w rid,
     statusOf rid (world (retryDebriefRoute env req w)) = statusOf rid w \/
     statusOf rid (world (retryDebriefRoute env req w)) = Some processing) /\
  (forall env req w rid,
     statusOf rid (world (retryTranscriptionRoute env req w)) = statusOf rid w \/
     statusOf rid (world (retryTranscriptionRoute env req w)) = Some processing) /\
  (forall env rid w r,
     recordings (db w) !! rid = Some r ->
     hasTranscript rid w ->
     statusOf rid (world (retryDebriefJob env rid w)) = Some processing) /\
  (forall env rid w r key,
     recordings (db w) !! rid = Some r ->
     objectKey r = Some key -> truthy key = true ->
     statusOf rid (world (retryTranscriptionJob env rid w)) = Some processing).
Proof.
  split; [exact completeUploadRoute_status|].
  split; [exact transcription_status|].
  split; [exact debrief_status|].
  split; [exact retryDebriefJob_status|].
  split; [exact retryTranscriptionJob_status|].
  split; [exact retryDebriefRoute_status|].
  split; [exact retryTranscriptionRoute_status|].
  split; [exact retryDebriefJob_sets_processing|].
  exact retryTranscriptionJob_sets_processing.
Qed.

Lemma status_changes_made_by_each_operation_witness :
  statusOf "r1" Demo.wDebriefFailed = Some failed /\
  statusOf "r1" (world (retryDebriefJob Demo.env0 "r1" Demo.wDebriefFailed))
  = Some processing.
Proof.
  split; [vm_compute; reflexivity|].
  destruct status_changes_made_by_each_operation
    as (_ & _ & _ & _ & _ & _ & _ & H & _).
  eapply (H Demo.env0 "r1" Demo.wDebriefFailed).
  - vm_compute. reflexivity.
  - vm_compute. eexists. reflexivity.
Defined.

(** C4 as stated fails on retry-debrief: at the end of the demo run the
    Recording is [complete]; [retryDebriefJob] moves it back to
    [processing]. *)
Lemma retryDebriefJob_moves_complete_back_to_processing :
  statusOf "r1" Demo.wComplete = Some complete /\
  statusOf "r1" (world (retryDebriefJob Demo.env0 "r1" Demo.wComplete))
  = Some processing.
Proof. vm_compute. split; reflexivity. Qed.

(** ** C10: the Recording is gone when the transcription worker chains *)

Lemma transcriptionSteps1to5_success (env : Env) (data : TranscriptionJobData)
    (w w1 : World) (t : Transcript) (out : ProviderTranscription) :
  transcriptionSteps1to5 env data w = Ok (t, out) w1 ->
  transcriptOf (tRecordingId data) (db w1) = Some t /\
  jobStatus <$> jobs (db w1) !! tJobId data = Some job_complete.
Proof.
  intros H. symmetry in H. execute_in H.
  all: unfold transcriptOf; cbn [db transcripts jobs].
  all: match goal with
       | Hup : upsertRow (forRecording _) _ _ _ = (_, _) |- _ =>
           apply (upsertRow_find transcriptRecordingId) in Hup as [Hfind _];
           [|reflexivity..]
       end.
  all: split; [exact Hfind|].
  all: rewrite list_lookup_insert_eq
         by (rewrite length_insert; eapply lookup_lt_Some; eassumption).
  all: reflexivity.
Qed.

Lemma transcriptionStep6_recording_gone (env : Env)
    (data : TranscriptionJobData) (t : Transcript)
    (out : ProviderTranscription) (w1 : World) :
  recordings (db w1) !! tRecordingId data = None ->
  world (transcriptionStep6 env data t out w1) = w1 /\
  (updateProgress env 100 = None ->
   transcriptionStep6 env data t out w1
   = Ok {| rTranscriptId := transcriptId t; rText := pText out;
           rSegmentCount := length (default [] (pSegments out));
           rLanguage := pLanguage out |} w1).
Proof.
  intros Hgone.
  unfold transcriptionStep6, bind, db_recording_findUnique.
  rewrite Hgone. unfold ret, awaitUnit.
  destruct (updateProgress env 100) as [e|]; cbn; [|done].
  split; [reflexivity|discriminate].
Qed.

Lemma transcriptionStep6_recording_found (env : Env)
    (data : TranscriptionJobData) (t : Transcript)
    (out : ProviderTranscription) (w1 : World) (r : Recording) :
  recordings (db w1) !! tRecordingId data = Some r ->
  added w1 (world (transcriptionStep6 env data t out w1))
    [JobRowCreated (length (jobs (db w1))) DEBRIEF;
     EnqueueAttempted DEBRIEF (length (jobs (db w1)))] /\
  jobs (db (world (transcriptionStep6 env data t out w1)))
  = jobs (db w1)
      ++ [{| jobRecordingId := tRecordingId data; type := DEBRIEF;
             jobStatus := job_pending; error := None;
             startedAt := None; completedAt := None |}].
Proof.
  intros Hfound.
  unfold transcriptionStep6, bind, db_recording_findUnique.
  rewrite Hfound. unfold db_job_create, debriefQueue_add, ret, awaitUnit, added.
  cbn [dJobId].
  destruct (queueAdd env DEBRIEF (length (jobs (db w1)))) as [e|];
    [|destruct (updateProgress env 100) as [e|]];
    cbn; by rewrite <- app_assoc.
Qed.

(** C10. Once steps 1 to 5 of the transcription worker have stored the
    Transcript and marked the TRANSCRIBE Job [complete], the worker goes
    on with step 6 inside its [try] block. Run on any world in which the
    Recording row of the payload is not found, step 6 leaves the world
    exactly as it found it: no DEBRIEF Job row is created, nothing is put
    on the debrief queue, no status is written, and the Recording is
    still not there, so it is not [complete]; if the last progress report
    goes through, the step returns the worker's result, the [catch] block
    is not entered and the worker ends without throwing. When the row is
    found, the same step creates the DEBRIEF Job row and attempts the
    enqueue. *)
Theorem transcription_worker_ends_quietly_when_recording_gone
    (env : Env) (data : TranscriptionJobData) (t : Transcript)
    (out : ProviderTranscription) :
  (forall w w1,
     transcriptionSteps1to5 env data w = Ok (t, out) w1 ->
     transcriptOf (tRecordingId data) (db w1) = Some t /\
     jobStatus <$> jobs (db w1) !! tJobId data = Some job_complete /\
     transcriptionProcessor env data w
     = tryCatch (transcriptionStep6 env data t out)
         (onWorkerError env (tRecordingId data) (tJobId data)) w1) /\
  (forall w1,
     recordings (db w1) !! tRecordingId data = None ->
     world (transcriptionStep6 env data t out w1) = w1 /\
     (updateProgress env 100 = None ->
      tryCatch (transcriptionStep6 env data t out)
        (onWorkerError env (tRecordingId data) (tJobId data)) w1
      = Ok {| rTranscriptId := transcriptId t; rText := pText out;
              rSegmentCount := length (default [] (pSegments out));
              rLanguage := pLanguage out |} w1) /\
     statusOf (tRecordingId data)
       (world (transcriptionStep6 env data t out w1)) = None) /\
  (forall w1 r,
     recordings (db w1) !! tRecordingId data = Some r ->
     added w1 (world (transcriptionStep6 env data t out w1))
       [JobRowCreated (length (jobs (db w1))) DEBRIEF;
        EnqueueAttempted DEBRIEF (length (jobs (db w1)))] /\
     jobs (db (world (transcriptionStep6 env data t out w1)))
     = jobs (db w1)
         ++ [{| jobRecordingId := tRecordingId data; type := DEBRIEF;
                jobStatus := job_pending; error := None;
                startedAt := None; completedAt := None |}]).
Proof.
  split; [|split].
  - intros w w1 H15.
    destruct (transcriptionSteps1to5_success env data w w1 t out H15)
      as [Ht Hj].
    split; [exact Ht|]. split; [exact Hj|].
    unfold transcriptionProcessor, tryCatch, transcriptionTry, bind.
    by rewrite H15.
  - intros w1 Hgone.
    destruct (transcriptionStep6_recording_gone env data t out w1 Hgone)
      as [Hw Hret].
    split; [exact Hw|]. split.
    + intros Hprog. unfold tryCatch. by rewrite (Hret Hprog).
    + rewrite Hw. unfold statusOf. by rewrite Hgone.
  - intros w1 r Hfound. by eapply transcriptionStep6_recording_found.
Qed.

Lemma transcription_worker_ends_quietly_when_recording_gone_witness :
  transcriptionSteps1to5 Demo.env0 Demo.transcriptionData Demo.wProcessing
  = Ok (Demo.transcriptRow, Demo.providerOutput) Demo.wAfterStep5 /\
  tryCatch
    (transcriptionStep6 Demo.env0 Demo.transcriptionData Demo.transcriptRow
       Demo.providerOutput)
    (onWorkerError Demo.env0 "r1" 0%nat) Demo.wRecordingDeleted
  = Ok {| rTranscriptId := 0%nat; rText := "hello"; rSegmentCount := 1%nat;
          rLanguage := "en" |} Demo.wRecordingDeleted /\
  type <$> jobs (db Demo.wRecordingDeleted) = [TRANSCRIBE] /\
  debriefQueue Demo.wRecordingDeleted = [].
Proof.
  destruct (transcription_worker_ends_quietly_when_recording_gone Demo.env0
              Demo.transcriptionData Demo.transcriptRow Demo.providerOutput)
    as (_ & Hgone & _).
  destruct (Hgone Demo.wRecordingDeleted) as (_ & Hret & _).
  - vm_compute. reflexivity.
  - split; [vm_compute; reflexivity|].
    split; [exact (Hret eq_refl)|]. split; vm_compute; reflexivity.
Defined.

(** ** Further properties of the pipeline *)

(** X6. In every state the operations of the pipeline reach, every
    payload on the transcription queue and on the debrief queue names a
    Job row and a Recording that exist. *)
Theorem queued_payloads_name_existing_rows (w : World) :
  reachable w -> QueuedRowsExist w.
Proof. apply reachable_QueuedRowsExist. Qed.

Lemma queued_payloads_name_existing_rows_witness :
  QueuedRowsExist Demo.wDebriefFailed.
Proof.
  apply queued_payloads_name_existing_rows.
  exact (proj2 (proj2 demo_reachable)).
Defined.

(** X13. Two runs of the persistence step for one recording, and two
    calls of [saveTranscript], on a Transcript table with one row per
    recording at most, leave exactly one row for that recording; its text
    and language are those of the later run, and its segments are those of
    the later run whenever the later run has any. *)
Theorem two_persistence_runs_leave_one_row
    (w : World) (rid : string) (first second : ProviderTranscription) :
  uniqueTranscripts (db w) ->
  (exists t1 w1 t2 w2,
     persistTranscript rid first w = Ok t1 w1 /\
     persistTranscript rid second w1 = Ok t2 w2 /\
     filter (fun t => transcriptRecordingId t = rid) (transcripts (db w2)) = [t2] /\
     text t2 = pText second /\
     language t2 = pLanguage second /\
     (forall s, pSegments second = Some s -> segments t2 = Some s)) /\
  (exists w1 w2 t2,
     saveTranscript rid (pText first) (pSegments first) (pLanguage first) w
     = Ok tt w1 /\
     saveTranscript rid (pText second) (pSegments second) (pLanguage second) w1
     = Ok tt w2 /\
     filter (fun t => transcriptRecordingId t = rid) (transcripts (db w2)) = [t2] /\
     text t2 = pText second /\
     language t2 = pLanguage second /\
     (forall s, pSegments second = Some s -> segments t2 = Some s)).
Proof.
  intros Hu. split.
  - destruct (persistTranscript_twice w rid first second Hu)
      as (t1 & w1 & t2 & w2 & H1 & H2 & Hf & Ht & Hl & Hs & _).
    exists t1, w1, t2, w2. repeat (split; [assumption|]).
    intros s Hsome. by rewrite Hs, Hsome.
  - destruct (saveTranscript_twice w rid (pText first) (pText second)
                (pSegments first) (pSegments second)
                (pLanguage first) (pLanguage second) Hu)
      as (w1 & w2 & t1 & t2 & H1 & H2 & _ & Hf & Ht & Hl & Hs & _).
    exists w1, w2, t2. repeat (split; [assumption|]).
    intros s Hsome. by rewrite Hs, Hsome.
Qed.

Lemma two_persistence_runs_leave_one_row_witness :
  exists t1 w1 t2 w2,
    persistTranscript "r1" Demo.outputWithoutSegments Demo.wTranscribed
    = Ok t1 w1 /\
    persistTranscript "r1" Demo.providerOutput w1 = Ok t2 w2 /\
    filter (fun t => transcriptRecordingId t = "r1") (transcripts (db w2))
    = [t2] /\
    text t2 = "hello" /\
    segments t2 = Some [Demo.segment].
Proof.
  destruct (two_persistence_runs_leave_one_row Demo.wTranscribed "r1"
              Demo.outputWithoutSegments Demo.providerOutput)
    as [(t1 & w1 & t2 & w2 & H1 & H2 & Hf & Ht & _ & Hs) _].
  - unfold uniqueTranscripts. vm_compute. apply NoDup_singleton.
  - exists t1, w1, t2, w2. split; [exact H1|]. split; [exact H2|].
    split; [exact Hf|]. split; [exact Ht|]. by apply Hs.
Defined.

Lemma getRecordingByUser_not_owned (w : World) (rid uid : string)
    (includeRelations : bool) :
  notOwned w rid uid ->
  getRecordingByUser rid uid includeRelations w = Ok None w.
Proof.
  intros Hno. unfold getRecordingByUser, db_recording_findFirst.
  destruct (recordings (db w) !! rid) as [r|] eqn:Hr; [|reflexivity].
  by rewrite (proj2 (String.eqb_neq _ _) (Hno r Hr)).
Qed.

Lemma getRecordingByUser_owned (w : World) (rid uid : string)
    (includeRelations : bool) (r : Recording) :
  recordings (db w) !! rid = Some r -> userId r = uid ->
  getRecordingByUser rid uid includeRelations w
  = Ok (Some {| recording := r;
                transcript :=
                  if includeRelations then transcriptOf rid (db w) else None;
                debrief :=
                  if includeRelations then debriefOf rid (db w) else None |}) w.
Proof.
  intros Hr Hu. unfold getRecordingByUser, db_recording_findFirst.
  by rewrite Hr, Hu, String.eqb_refl.
Qed.

(** X11. Each of the three routes answers a request without an
    [x-user-id] header (or with an empty one) with 401, and a request for
    a Recording that does not exist or is another user's with 404; in both
    cases nothing is written, enqueued or logged. *)
Theorem routes_reject_unidentified_or_foreign_caller
    (env : Env) (req : Request) (w : World) :
  (headerUserId req = None ->
   completeUploadRoute env req w
   = Ok {| code := 401;
           payload := ErrorPayload "Unauthorized" "Missing x-user-id header" |} w /\
   retryDebriefRoute env req w
   = Ok {| code := 401;
           payload := ErrorPayload "Unauthorized" "Missing x-user-id header" |} w /\
   retryTranscriptionRoute env req w
   = Ok {| code := 401;
           payload := ErrorPayload "Unauthorized" "Missing x-user-id header" |} w)
  /\
  (forall uid,
     headerUserId req = Some uid ->
     notOwned w (paramId req) uid ->
     (forall size, parsedBody req = inr size ->
        completeUploadRoute env req w
        = Ok {| code := 404;
                payload := ErrorPayload "Not Found" "Recording not found" |} w) /\
     retryDebriefRoute env req w
     = Ok {| code := 404;
             payload := ErrorPayload "Not Found" "Recording not found" |} w /\
     retryTranscriptionRoute env req w
     = Ok {| code := 404;
             payload := ErrorPayload "Not Found" "Recording not found" |} w).
Proof.
  split.
  - intros Hu. unfold completeUploadRoute, retryDebriefRoute,
      retryTranscriptionRoute. rewrite Hu. done.
  - intros uid Hu Hno. split; [|split].
    + intros size Hb. unfold completeUploadRoute. rewrite Hu, Hb.
      unfold tryCatch, bind.
      by rewrite (getRecordingByUser_not_owned w _ uid _ Hno).
    + unfold retryDebriefRoute. rewrite Hu. unfold tryCatch, bind.
      by rewrite (getRecordingByUser_not_owned w _ uid _ Hno).
    + unfold retryTranscriptionRoute. rewrite Hu. unfold tryCatch, bind.
      by rewrite (getRecordingByUser_not_owned w _ uid _ Hno).
Qed.

Lemma routes_reject_unidentified_or_foreign_caller_witness :
  retryDebriefRoute Demo.env0
    {| xUserId := Some "u2"; paramId := "r1"; parsedBody := inr None |}
    Demo.wTranscribed
  = Ok {| code := 404;
          payload := ErrorPayload "Not Found" "Recording not found" |}
       Demo.wTranscribed.
Proof.
  destruct (routes_reject_unidentified_or_foreign_caller Demo.env0
              {| xUserId := Some "u2"; paramId := "r1"; parsedBody := inr None |}
              Demo.wTranscribed) as [_ H].
  destruct (H "u2") as (_ & Hd & _).
  - reflexivity.
  - intros r Hr. vm_compute in Hr. injection Hr as <-. discriminate.
  - exact Hd.
Defined.

(** X12. For a Recording of the caller: retry-debrief is answered 400
    "No Transcript" when the Recording has no Transcript, and
    retry-transcription 400 "No File" when it has no object key (or an
    empty one); complete-upload is answered 400 "Validation Error" when
    the body does not parse. In each case nothing is written, enqueued
    or logged. *)
Theorem routes_reject_missing_precondition
    (env : Env) (req : Request) (w : World) (uid : string) (r : Recording) :
  headerUserId req = Some uid ->
  recordings (db w) !! paramId req = Some r ->
  userId r = uid ->
  (transcriptOf (paramId req) (db w) = None ->
   exists msg,
     retryDebriefRoute env req w
     = Ok {| code := 400; payload := ErrorPayload "No Transcript" msg |} w) /\
  (orElse (objectKey r) "" = "" ->
   exists msg,
     retryTranscriptionRoute env req w
     = Ok {| code := 400; payload := ErrorPayload "No File" msg |} w) /\
  (forall issues,
     parsedBody req = inl issues ->
     completeUploadRoute env req w
     = Ok {| code := 400; payload := ErrorPayload "Validation Error" issues |} w).
Proof.
  intros Hu Hr Hown. split; [|split].
  - intros Hnone. eexists. unfold retryDebriefRoute. rewrite Hu.
    unfold tryCatch, bind.
    rewrite (getRecordingByUser_owned w _ uid true r Hr Hown).
    cbn [transcript]. rewrite Hnone. reflexivity.
  - intros Hkey. eexists. unfold retryTranscriptionRoute. rewrite Hu.
    unfold tryCatch, bind.
    rewrite (getRecordingByUser_owned w _ uid false r Hr Hown).
    cbn [recording]. rewrite Hkey. reflexivity.
  - intros issues Hb. unfold completeUploadRoute. by rewrite Hu, Hb.
Qed.

Lemma routes_reject_missing_precondition_witness :
  exists msg,
    retryDebriefRoute Demo.env0 Demo.request Demo.wProcessing
    = Ok {| code := 400; payload := ErrorPayload "No Transcript" msg |}
         Demo.wProcessing.
Proof.
  edestruct (routes_reject_missing_precondition Demo.env0 Demo.request
               Demo.wProcessing "u1") as [H _].
  - reflexivity.
  - vm_compute. reflexivity.
  - reflexivity.
  - apply H. vm_compute. reflexivity.
Defined.

Lemma completeUploadRoute_replies (env : Env) (req : Request) (w : World) :
  exists rep w', completeUploadRoute env req w = Ok rep w'.
Proof.
  remember (completeUploadRoute env req w) as o eqn:H.
  normalize_in H; repeat step H; subst o; eauto.
Qed.

Lemma retryDebriefRoute_replies (env : Env) (req : Request) (w : World) :
  exists rep w', retryDebriefRoute env req w = Ok rep w'.
Proof.
  remember (retryDebriefRoute env req w) as o eqn:H.
  normalize_in H; repeat step H; subst o; eauto.
Qed.

Lemma retryTranscriptionRoute_replies (env : Env) (req : Request) (w : World) :
  exists rep w', retryTranscriptionRoute env req w = Ok rep w'.
Proof.
  remember (retryTranscriptionRoute env req w) as o eqn:H.
  normalize_in H; repeat step H; subst o; eauto.
Qed.

(** X14. None of the three routes lets an exception out: whatever the
    store, the queue or the database do, the handler ends with a reply. *)
Theorem routes_always_reply (env : Env) (req : Request) (w : World) :
  (exists rep w', completeUploadRoute env req w = Ok rep w') /\
  (exists rep w', retryDebriefRoute env req w = Ok rep w') /\
  (exists rep w', retryTranscriptionRoute env req w = Ok rep w').
Proof.
  split; [apply completeUploadRoute_replies|].
  split; [apply retryDebriefRoute_replies|apply retryTranscriptionRoute_replies].
Qed.

(** What an upsert does to the keys of a table. *)
Lemma upsertRow_keys {A} (key : A -> string) (rid : string)
    (upd : A -> A) (create : A) (rows : list A) :
  (forall x, key (upd x) = key x) ->
  key create = rid ->
  key <$> (upsertRow (fun x => String.eqb (key x) rid) upd create rows).2
  = match find (fun x => String.eqb (key x) rid) rows with
    | Some _ => key <$> rows
    | None => (key <$> rows) ++ [rid]
    end.
Proof.
  intros Hupd Hcreate. induction rows as [|x rest IH]; cbn.
  - by rewrite Hcreate.
  - destruct (String.eqb (key x) rid) eqn:Hm; cbn.
    + by rewrite Hupd.
    + destruct (upsertRow _ upd create rest) as [row rest']. cbn in *.
      rewrite IH. by destruct (find _ rest).
Qed.

Lemma find_key_None {A} (key : A -> string) (rid : string) (rows : list A) :
  find (fun x => String.eqb (key x) rid) rows = None ->
  rid ∉ (key <$> rows).
Proof.
  induction rows as [|x rest IH]; cbn; [intros _; apply not_elem_of_nil|].
  destruct (String.eqb_spec (key x) rid) as [|Hne]; [discriminate|].
  intros Hnone Hin. apply elem_of_cons in Hin as [Hin|Hin]; [congruence|].
  by apply IH.
Qed.

Lemma upsertRow_NoDup {A} (key : A -> string) (rid : string)
    (upd : A -> A) (create : A) (rows : list A) (row : A) (rows' : list A) :
  (forall x, key (upd x) = key x) ->
  key create = rid ->
  NoDup (key <$> rows) ->
  upsertRow (fun x => String.eqb (key x) rid) upd create rows = (row, rows') ->
  NoDup (key <$> rows').
Proof.
  intros Hupd Hcreate Hnd Hup.
  pose proof (upsertRow_keys key rid upd create rows Hupd Hcreate) as Hkeys.
  rewrite Hup in Hkeys. cbn [snd] in Hkeys. rewrite Hkeys.
  destruct (find _ rows) eqn:Hfind; [exact Hnd|].
  apply NoDup_app. split; [exact Hnd|]. split; [|apply NoDup_singleton].
  intros k Hk Hin. apply list_elem_of_singleton in Hin as ->.
  by apply (find_key_None key rid rows).
Qed.

Ltac one_row_leaf Hinv :=
  let Ht := fresh "Ht" in
  let Hd := fresh "Hd" in
  destruct Hinv as [Ht Hd];
  split; unfold uniqueTranscripts in *; cbn [db transcripts debriefs] in *;
  first
    [ assumption
    | eapply (upsertRow_NoDup transcriptRecordingId);
      [| |exact Ht|eassumption]; reflexivity
    | eapply (upsertRow_NoDup debriefRecordingId);
      [| |exact Hd|eassumption]; reflexivity ].

Lemma step_keeps_OneRowPerRecording (env : Env) (op : Op) (w : World) :
  OneRowPerRecording w -> OneRowPerRecording (run env op w).
Proof.
  intros Hinv. destruct op; cbn [run]; execute_as w' H; one_row_leaf Hinv.
Qed.

(** X8. In every state the operations of the pipeline reach, the
    Transcript table and the Debrief table hold at most one row for any
    recording: the workers' upserts never add a second one. *)
Theorem reachable_one_row_per_recording (w : World) :
  reachable w -> OneRowPerRecording w.
Proof.
  induction 1 as [|env op w _ IH _].
  - split; [unfold uniqueTranscripts|]; cbn; apply NoDup_nil_2.
  - by apply step_keeps_OneRowPerRecording.
Qed.

Lemma reachable_one_row_per_recording_witness :
  OneRowPerRecording Demo.wRetranscribed.
Proof.
  apply reachable_one_row_per_recording.
  exact (proj2 demo_retranscription_reachable).
Defined.

(** X9. A run of the debrief worker that returns (does not throw) has
    stored the provider's output as the Debrief of the recording, marked
    its Job row [complete] and the Recording [complete], and returns the
    id of that Debrief with the markdown the provider gave. *)
Theorem successful_debrief_run_completes_recording
    (env : Env) (data : DebriefJobData) (w w' : World) (res : DebriefResult) :
  debriefProcessor env data w = Ok res w' ->
  statusOf (dRecordingId data) w' = Some complete /\
  jobStatus <$> jobs (db w') !! dJobId data = Some job_complete /\
  exists out row,
    generateDebrief env (dTranscriptText data) (dRecordingMode data)
      (dRecordingTitle data) = inr out /\
    debriefOf (dRecordingId data) (db w') = Some row /\
    markdown row = pMarkdown out /\
    sections row = pSections out /\
    rDebriefId res = debriefId row /\
    rMarkdown res = pMarkdown out.
Proof.
  intros H. symmetry in H. execute_in H.
  split; [|split].
  - unfold statusOf. cbn [db recordings].
    by rewrite (lookup_insert_eq (M := gmap string)).
  - cbn [db jobs]. rewrite list_lookup_insert_eq
      by (rewrite length_insert; eapply lookup_lt_Some; eassumption).
    reflexivity.
  - match goal with
    | Hup : upsertRow (debriefFor _) _ _ _ = (?d, _) |- _ =>
        pose proof (f_equal fst Hup) as Hrow;
        rewrite upsertRow_row in Hrow; cbn [fst] in Hrow;
        apply (upsertRow_find debriefRecordingId) in Hup as [Hfind _];
        [|reflexivity..];
        eexists _, d
    end.
    split; [reflexivity|]. split; [exact Hfind|]. cbn.
    by destruct (find _ (debriefs (db w))); subst.
Qed.

Lemma successful_debrief_run_completes_recording_witness :
  statusOf "r1" Demo.wComplete = Some complete /\
  jobStatus <$> jobs (db Demo.wComplete) !! 1%nat = Some job_complete.
Proof.
  destruct (successful_debrief_run_completes_recording Demo.env0
              Demo.debriefData Demo.wTranscribed Demo.wComplete
              {| rDebriefId := 0%nat; rMarkdown := "summary";
                 rSectionCount := 0%nat |}) as (Hs & Hj & _).
  - vm_compute. reflexivity.
  - split; [exact Hs|exact Hj].
Defined.

(** X10. A run of the transcription worker that returns (does not throw)
    has stored the provider's text and language as the Transcript of the
    recording and marked its Job row [complete]. When the Recording was
    there, it has appended one payload to the debrief queue, for that
    recording, carrying the id of that Transcript and the provider's text
    and naming a new DEBRIEF Job row that is [pending]; when it was not,
    the debrief queue is as before. *)
Theorem successful_transcription_run_chains_debrief
    (env : Env) (data : TranscriptionJobData) (w w' : World)
    (res : TranscriptionResult) :
  transcriptionProcessor env data w = Ok res w' ->
  jobStatus <$> jobs (db w') !! tJobId data = Some job_complete /\
  exists url out row,
    getPresignedDownloadUrl env (tObjectKey data) = inr url /\
    transcribeAudio env url (tMimeType data) = inr out /\
    transcriptOf (tRecordingId data) (db w') = Some row /\
    text row = pText out /\
    language row = pLanguage out /\
    rTranscriptId res = transcriptId row /\
    rText res = pText out /\
    (forall r, recordings (db w) !! tRecordingId data = Some r ->
       exists d job,
         debriefQueue w' = debriefQueue w ++ [d] /\
         dRecordingId d = tRecordingId data /\
         dTranscriptId d = transcriptId row /\
         dTranscriptText d = pText out /\
         jobs (db w') !! dJobId d = Some job /\
         type job = DEBRIEF /\
         jobStatus job = job_pending /\
         jobRecordingId job = tRecordingId data) /\
    (recordings (db w) !! tRecordingId data = None ->
     debriefQueue w' = debriefQueue w).
Proof.
  intros H. symmetry in H. execute_in H.
  all: cbn [db jobs transcripts debriefQueue recordings].
  all: split;
    [ rewrite ?lookup_app_l
        by (rewrite !length_insert; eapply lookup_lt_Some; eassumption);
      rewrite list_lookup_insert_eq
        by (rewrite ?length_insert; eapply lookup_lt_Some; eassumption);
      reflexivity | ].
  all: match goal with
       | Hup : upsertRow (forRecording _) _ _ _ = (?t, _),
         Hurl : getPresignedDownloadUrl _ _ = inr ?s,
         Hout : transcribeAudio _ ?s _ = inr ?p |- _ =>
           pose proof (f_equal fst Hup) as Hrow;
           rewrite upsertRow_row in Hrow; cbn [fst] in Hrow;
           apply (upsertRow_find transcriptRecordingId) in Hup as [Hfind _];
           [|reflexivity..];
           exists s, p, t
       end.
  all: split; [reflexivity|]; split; [assumption|]; split; [exact Hfind|].
  all: split; [by destruct (find _ (transcripts (db w))); subst|].
  all: split; [by destruct (find _ (transcripts (db w))); subst|].
  all: split; [reflexivity|]; split; [reflexivity|].
  all: split;
    [ intros r0 Hr0;
      first
        [ discriminate Hr0
        | eexists _, _; split; [reflexivity|];
          cbn [dRecordingId dTranscriptId dTranscriptText dJobId];
          split; [reflexivity|]; split; [reflexivity|]; split; [reflexivity|];
          split;
          [ rewrite lookup_app_r by reflexivity;
            rewrite Nat.sub_diag; reflexivity
          | split; [reflexivity|]; split; reflexivity ] ]
    | intros Hnone; first [discriminate Hnone | reflexivity] ].
Qed.

Lemma successful_transcription_run_chains_debrief_witness :
  debriefQueue Demo.wTranscribed = [Demo.debriefData] /\
  jobStatus <$> jobs (db Demo.wTranscribed) !! 0%nat = Some job_complete.
Proof.
  destruct (successful_transcription_run_chains_debrief Demo.env0
              Demo.transcriptionData Demo.wProcessing Demo.wTranscribed
              {| rTranscriptId := 0%nat; rText := "hello";
                 rSegmentCount := 1%nat; rLanguage := "en" |})
    as (Hj & _).
  - vm_compute. reflexivity.
  - split; [vm_compute; reflexivity|exact Hj].
Defined.

(** X15. When complete-upload answers 200, the Recording was [pending],
    the caller's own, with an object key whose object is in storage; it is
    now [processing]; one TRANSCRIBE Job row, [pending], has been appended
    to the Job table, one payload naming that row and carrying the object
    key, the MIME type and the caller has been appended to the
    transcription queue, and the reply carries the id of that row. *)
Theorem complete_upload_success
    (env : Env) (req : Request) (w w' : World) (rep : Reply) :
  completeUploadRoute env req w = Ok rep w' ->
  code rep = 200 ->
  statusOf (paramId req) w = Some pending /\
  statusOf (paramId req) w' = Some processing /\
  exists uid key r,
    headerUserId req = Some uid /\
    recordings (db w) !! paramId req = Some r /\
    userId r = uid /\
    objectKey r = Some key /\
    objectExists env key = inr true /\
    jobs (db w')
    = jobs (db w)
        ++ [{| jobRecordingId := paramId req; type := TRANSCRIBE;
               jobStatus := job_pending; error := None;
               startedAt := None; completedAt := None |}] /\
    transcriptionQueue w'
    = transcriptionQueue w
        ++ [{| tRecordingId := paramId req;
               tJobId := length (jobs (db w));
               tObjectKey := key;
               tMimeType := orElse (mimeType r) "audio/mpeg";
               tUserId := uid |}] /\
    payload rep
    = CompleteUploadPayload (paramId req) (length (jobs (db w))) "processing"
        "Upload complete. Transcription job queued.".
Proof.
  intros H Hcode. symmetry in H. execute_in H; cbn in Hcode;
    try discriminate Hcode.
  tidy.
  match goal with
  | Hu : String.eqb (userId _) _ = true |- _ => apply String.eqb_eq in Hu
  end.
  split; [|split].
  - unfold statusOf.
    match goal with
    | Hr : recordings (db w) !! _ = Some _ |- _ => rewrite Hr
    end.
    cbn. by f_equal.
  - unfold statusOf. cbn [db recordings].
    by rewrite (lookup_insert_eq (M := gmap string)).
  - eexists _, _, _. cbn [db jobs transcriptionQueue payload tJobId].
    repeat split; eassumption.
Qed.

End PipelineProperties.
